(** * Sigil preview window: the full-screen SVG image fix-up

    A shallow embedding of [PreviewWindow::fixup_fullscreen_svg_images] and of
    the textual rewrite that [PreviewWindow::UpdatePage] performs when the
    detector answers yes (src/MainUI/PreviewWindow.cpp).

    The detector inspects the tree built by the gumbo repair parser through
    the [GumboInterface] helper class.  Neither the parser nor the helper
    class is part of the file under study, so the helper's methods are the
    fields of a type class and every general theorem holds for any
    implementation of them.  Pointers to nodes are an abstract type: the
    parent link may be null ([None]), and nothing forbids a cyclic parent
    chain, so the walk up the tree carries fuel. *)

From Stdlib Require Import String Ascii List Arith Bool Lia.
From stdpp Require Import base option list strings gmap.

Local Open Scope string_scope.
Local Open Scope list_scope.

(** ** Outcomes of a run

    C++ code that indexes past the end of a [QList] or reads through a null
    pointer has no defined result.  The embedding makes these outcomes
    explicit, next to the exhaustion of the fuel given to the only unbounded
    loop. *)

Inductive result (A : Type) : Type :=
| Done (a : A)          (* the call returned [a] *)
| NullDeref             (* a null [GumboNode*] was dereferenced *)
| OutOfRange            (* [QList::at] outside of the list *)
| OutOfFuel.            (* the walk did not finish within the fuel *)

Arguments Done {A} a.
Arguments NullDeref {A}.
Arguments OutOfRange {A}.
Arguments OutOfFuel {A}.

Definition bind {A B : Type} (m : result A) (k : A -> result B) : result B :=
  match m with
  | Done a => k a
  | NullDeref => NullDeref
  | OutOfRange => OutOfRange
  | OutOfFuel => OutOfFuel
  end.

Notation "'let*' x ':=' m 'in' k" := (bind m (fun x => k))
  (at level 10, x name, m at level 100, k at level 200).

(** [QList<T>::at(i)] *)
Definition at_ {A : Type} (l : list A) (i : nat) : result A :=
  match l !! i with
  | Some a => Done a
  | None => OutOfRange
  end.

(** ** The parse tree as the detector sees it *)

(** [GumboNodeType] of gumbo.h. *)
Inductive GumboNodeType : Set :=
| GUMBO_NODE_DOCUMENT
| GUMBO_NODE_ELEMENT
| GUMBO_NODE_TEXT
| GUMBO_NODE_CDATA
| GUMBO_NODE_COMMENT
| GUMBO_NODE_WHITESPACE
| GUMBO_NODE_TEMPLATE.

(** [GumboTag] of gumbo.h, cut down to the tags this file tells apart; every
    other member of the enumeration is [GUMBO_TAG_UNKNOWN]. *)
Inductive GumboTag : Set :=
| GUMBO_TAG_HTML
| GUMBO_TAG_HEAD
| GUMBO_TAG_BODY
| GUMBO_TAG_DIV
| GUMBO_TAG_SVG
| GUMBO_TAG_IMAGE
| GUMBO_TAG_SCRIPT
| GUMBO_TAG_STYLE
| GUMBO_TAG_H1
| GUMBO_TAG_H2
| GUMBO_TAG_H3
| GUMBO_TAG_H4
| GUMBO_TAG_H5
| GUMBO_TAG_H6
| GUMBO_TAG_UNKNOWN.

Definition node_type_eqb (a b : GumboNodeType) : bool :=
  match a, b with
  | GUMBO_NODE_DOCUMENT, GUMBO_NODE_DOCUMENT
  | GUMBO_NODE_ELEMENT, GUMBO_NODE_ELEMENT
  | GUMBO_NODE_TEXT, GUMBO_NODE_TEXT
  | GUMBO_NODE_CDATA, GUMBO_NODE_CDATA
  | GUMBO_NODE_COMMENT, GUMBO_NODE_COMMENT
  | GUMBO_NODE_WHITESPACE, GUMBO_NODE_WHITESPACE
  | GUMBO_NODE_TEMPLATE, GUMBO_NODE_TEMPLATE => true
  | _, _ => false
  end.

Definition tag_eqb (a b : GumboTag) : bool :=
  match a, b with
  | GUMBO_TAG_HTML, GUMBO_TAG_HTML
  | GUMBO_TAG_HEAD, GUMBO_TAG_HEAD
  | GUMBO_TAG_BODY, GUMBO_TAG_BODY
  | GUMBO_TAG_DIV, GUMBO_TAG_DIV
  | GUMBO_TAG_SVG, GUMBO_TAG_SVG
  | GUMBO_TAG_IMAGE, GUMBO_TAG_IMAGE
  | GUMBO_TAG_SCRIPT, GUMBO_TAG_SCRIPT
  | GUMBO_TAG_STYLE, GUMBO_TAG_STYLE
  | GUMBO_TAG_H1, GUMBO_TAG_H1
  | GUMBO_TAG_H2, GUMBO_TAG_H2
  | GUMBO_TAG_H3, GUMBO_TAG_H3
  | GUMBO_TAG_H4, GUMBO_TAG_H4
  | GUMBO_TAG_H5, GUMBO_TAG_H5
  | GUMBO_TAG_H6, GUMBO_TAG_H6
  | GUMBO_TAG_UNKNOWN, GUMBO_TAG_UNKNOWN => true
  | _, _ => false
  end.

(** What the detector reads from a parsed document.  [Node] stands for a
    non-null [GumboNode*].  The first four fields are the struct members the
    function reads directly; the last four are the [GumboInterface] methods
    it calls.  [QHash<QString,QString>] is a finite map on strings. *)
Class GumboInterface (Node : Type) : Type := {
  node_type : Node -> GumboNodeType;               (* node->type *)
  element_tag : Node -> GumboTag;                  (* node->v.element.tag *)
  element_children : Node -> list Node;            (* node->v.element.children *)
  node_parent : Node -> option Node;               (* node->parent, None = NULL *)
  get_all_nodes_with_tag : GumboTag -> list Node;
  get_tag_name : Node -> string;
  get_local_text_of_node : Node -> string;
  get_attributes_of_node : Node -> gmap string string
}.

(** ** Qt string helpers *)

(** [QStringList::contains], case sensitive. *)
Definition contains (l : list string) (s : string) : bool :=
  existsb (String.eqb s) l.

(** [QStringList::join]. *)
Definition join (sep : string) (l : list string) : string :=
  String.concat sep l.

(** [QString::isEmpty]. *)
Definition isEmpty (s : string) : bool :=
  match s with
  | EmptyString => true
  | String _ _ => false
  end.

(** [QHash::value(key, defaultValue)]. *)
Definition value (h : gmap string string) (key dflt : string) : string :=
  default dflt (h !! key).

(** [static const QStringList HEADERTAGS]. *)
Definition HEADERTAGS : list string := ["h1"; "h2"; "h3"; "h4"; "h5"; "h6"].

(** [const QStringList allowed_tags] of the detector. *)
Definition allowed_tags : list string := ["div"; "svg"].

(** ** The detector *)

Section Detector.

Context {Node : Type} `{gi : GumboInterface Node}.

(** The body of the [for] loop over body's children, for one child: whether
    the child is left out of the tally.  Only called on element children. *)
Definition ignore_tag (child : Node) : bool :=
  let name := get_tag_name child in
  let ignore := String.eqb name "script" || String.eqb name "style" in
  if contains HEADERTAGS name
  then ignore || isEmpty (get_local_text_of_node child)
  else ignore.

(** The [for] loop over [body_node->v.element.children], with its [break].
    The state is [(child_names, elcount)]; names are appended at the end
    ([child_names << name]).  The test [elcount > 1] sits inside the
    [GUMBO_NODE_ELEMENT] branch, as in the source. *)
Fixpoint scan_children (children : list Node)
    (child_names : list string) (elcount : nat) : list string * nat :=
  match children with
  | [] => (child_names, elcount)
  | child :: rest =>
      if node_type_eqb (node_type child) GUMBO_NODE_ELEMENT then
        let name := get_tag_name child in
        let '(child_names', elcount') :=
          if negb (ignore_tag child)
          then (child_names ++ [name], S elcount)
          else (child_names, elcount) in
        if (1 <? elcount')%nat then (child_names', elcount')
        else scan_children rest child_names' elcount'
      else scan_children rest child_names elcount
  end.

(** [(elcount != 1) || !allowed_tags.contains(child_names.at(0))], with the
    short-circuit of [||]: [at(0)] is evaluated only when [elcount] is 1.
    The result is the condition of the [return false]. *)
Definition child_check_fails (st : list string * nat) : result bool :=
  let '(child_names, elcount) := st in
  if negb (elcount =? 1)%nat then Done true
  else let* name0 := at_ child_names 0 in Done (negb (contains allowed_tags name0)).

(** The condition of the [while] loop for a non-null [anode]. *)
Definition is_body_element (anode : Node) : bool :=
  node_type_eqb (node_type anode) GUMBO_NODE_ELEMENT
  && tag_eqb (element_tag anode) GUMBO_TAG_BODY.

(** One decision of the loop body: is the parent's name put in front? *)
Definition keeps_name (parent_name : string) : bool :=
  negb (String.eqb parent_name "script") && negb (String.eqb parent_name "style").

(** The [while] loop that builds [path_pieces].  [anode] is a nullable
    pointer.  [gi.get_tag_name(myparent)] reads through [myparent], so a null
    parent faults before [anode] can become null. *)
Fixpoint path_loop (fuel : nat) (anode : option Node)
    (path_pieces : list string) : result (list string) :=
  match anode with
  | None => Done path_pieces
  | Some a =>
      if is_body_element a then Done path_pieces
      else
        match fuel with
        | O => OutOfFuel
        | S fuel' =>
            match node_parent a with
            | None => NullDeref
            | Some myparent =>
                let parent_name := get_tag_name myparent in
                let path_pieces' :=
                  if keeps_name parent_name
                  then parent_name :: path_pieces
                  else path_pieces in
                path_loop fuel' (Some myparent) path_pieces'
            end
        end
  end.

(** [path_pieces] as the detector builds it for [image_node]. *)
Definition ancestor_path (fuel : nat) (image_node : Node) : result (list string) :=
  path_loop fuel (Some image_node) [get_tag_name image_node].

(** The last test of the detector. *)
Definition svg_is_full_size (svg_node : Node) : bool :=
  let svgatts := get_attributes_of_node svg_node in
  String.eqb (value svgatts "width" EmptyString) "100%"
  && String.eqb (value svgatts "height" EmptyString) "100%".

Definition fixup_fullscreen_svg_images (fuel : nat) : result bool :=
  let image_tags := get_all_nodes_with_tag GUMBO_TAG_IMAGE in
  if negb (length image_tags =? 1)%nat then Done false else
  let svg_tags := get_all_nodes_with_tag GUMBO_TAG_SVG in
  if negb (length svg_tags =? 1)%nat then Done false else
  let body_tags := get_all_nodes_with_tag GUMBO_TAG_BODY in
  if negb (length body_tags =? 1)%nat then Done false else
  let* image_node := at_ image_tags 0 in
  let* svg_node := at_ svg_tags 0 in
  let* body_node := at_ body_tags 0 in
  let* fails := child_check_fails (scan_children (element_children body_node) [] 0) in
  if fails then Done false else
  let* path_pieces := ancestor_path fuel image_node in
  let apath := join "," path_pieces in
  if negb (String.eqb apath "body,div,svg,image")
     && negb (String.eqb apath "body,svg,image")
  then Done false else
  if svg_is_full_size svg_node then Done true else Done false.

(** *** Notions in which the properties are stated *)

(** A child of body that the scan counts, read off [scan_children]. *)
Definition significant (child : Node) : bool :=
  node_type_eqb (node_type child) GUMBO_NODE_ELEMENT && negb (ignore_tag child).

(** The same notion in the words of the description: an element child that
    is neither [script] nor [style] nor a heading whose text is empty. *)
Definition is_significant (child : Node) : Prop :=
  node_type child = GUMBO_NODE_ELEMENT
  /\ get_tag_name child <> "script"
  /\ get_tag_name child <> "style"
  /\ ~ (In (get_tag_name child) HEADERTAGS
        /\ get_local_text_of_node child = EmptyString).

(** The scan of the description without the early exit: every child of body
    is examined. *)
Fixpoint scan_every_child (children : list Node)
    (child_names : list string) (elcount : nat) : list string * nat :=
  match children with
  | [] => (child_names, elcount)
  | child :: rest =>
      if node_type_eqb (node_type child) GUMBO_NODE_ELEMENT then
        if negb (ignore_tag child)
        then scan_every_child rest (child_names ++ [get_tag_name child]) (S elcount)
        else scan_every_child rest child_names elcount
      else scan_every_child rest child_names elcount
  end.

(** The described verdict on body's children, as the condition of the
    [return false]: it is false exactly when one child counts and that child
    is a div or an svg. *)
Definition child_verdict (counted : list Node) : bool :=
  match counted with
  | [child] => negb (contains allowed_tags (get_tag_name child))
  | _ => true
  end.

(** [n]'s ancestor [k] parent links up, if the links exist. *)
Fixpoint ancestor_at (k : nat) (n : Node) : option Node :=
  match k with
  | O => Some n
  | S k' =>
      match node_parent n with
      | Some p => ancestor_at k' p
      | None => None
      end
  end.

(** [climb n l]: [l] lists the proper ancestors of [n], nearest first, up to
    and including the first node that is a body element ([l] is empty when
    [n] is one itself). *)
Inductive climb : Node -> list Node -> Prop :=
| climb_body (n : Node) :
    is_body_element n = true -> climb n []
| climb_parent (n p : Node) (l : list Node) :
    is_body_element n = false ->
    node_parent n = Some p ->
    climb p l ->
    climb n (p :: l).

(** The path in the words of the description: an ancestor is left out when
    its own parent is tagged [script] or [style]. *)
Definition parent_is_container (a : Node) : bool :=
  match node_parent a with
  | Some p => negb (keeps_name (get_tag_name p))
  | None => false
  end.

Definition described_path (image_node : Node) (ancestors : list Node) : list string :=
  rev (map get_tag_name (List.filter (fun a => negb (parent_is_container a)) ancestors))
  ++ [get_tag_name image_node].

(** [ancestors_to_body n l]: the parent links lead from [n] through the
    nodes of [l], nearest first; the last of them is an element tagged
    [body], and neither [n] nor any node before the last is one ([l] is
    empty when [n] is one itself). *)
Inductive ancestors_to_body : Node -> list Node -> Prop :=
| at_body (n : Node) :
    node_type n = GUMBO_NODE_ELEMENT ->
    element_tag n = GUMBO_TAG_BODY ->
    ancestors_to_body n []
| below_body (n p : Node) (l : list Node) :
    ~ (node_type n = GUMBO_NODE_ELEMENT /\ element_tag n = GUMBO_TAG_BODY) ->
    node_parent n = Some p ->
    ancestors_to_body p l ->
    ancestors_to_body n (p :: l).

(** The path of names that leads down to a node through its ancestors [l]:
    the names of the ancestors from the outermost one on, those that are
    [script] or [style] left out, then the name of the node itself. *)
Definition named_path (image_node : Node) (l : list Node) : list string :=
  rev (List.filter
         (fun name => negb (String.eqb name "script")
                      && negb (String.eqb name "style"))
         (map get_tag_name l))
  ++ [get_tag_name image_node].

(** The nodes a tag search returns are elements that carry the tag. *)
Definition tags_sound : Prop :=
  forall tag : GumboTag,
    Forall (fun n => node_type n = GUMBO_NODE_ELEMENT /\ element_tag n = tag)
           (get_all_nodes_with_tag tag).

End Detector.

(** ** A reference implementation of the interface

    The [GumboInterface] helper class and the gumbo node structure are not
    in the file under study.  The instance below gives the concrete
    documents of the examples; the general theorems do not depend on it. *)

#[local] Set Warnings "-register-all".

(** Modelled from the spec: the parse tree, which is built outside of the
    file under study.  It is "a tree of Nodes", each "a parsed element with a
    tag identity, an ordered sequence of child Nodes, a single owning parent
    Node (root has none), and optionally an attribute mapping from
    attribute-name to attribute-value string (for element nodes) or inline
    text content (for text nodes)"; the parent owns its children.  A node is
    addressed by the child indices that lead to it from the root. *)
Inductive dom : Type :=
| Element (name : string) (attrs : list (string * string)) (kids : list dom)
| Leaf (type : GumboNodeType) (text : string).

(** Modelled from the spec: the "tag identity" of an element, missing with
    gumbo's tag table; the tag is read off the name. *)
Definition tag_of_name (name : string) : GumboTag :=
  if String.eqb name "html" then GUMBO_TAG_HTML
  else if String.eqb name "head" then GUMBO_TAG_HEAD
  else if String.eqb name "body" then GUMBO_TAG_BODY
  else if String.eqb name "div" then GUMBO_TAG_DIV
  else if String.eqb name "svg" then GUMBO_TAG_SVG
  else if String.eqb name "image" then GUMBO_TAG_IMAGE
  else if String.eqb name "script" then GUMBO_TAG_SCRIPT
  else if String.eqb name "style" then GUMBO_TAG_STYLE
  else if String.eqb name "h1" then GUMBO_TAG_H1
  else if String.eqb name "h2" then GUMBO_TAG_H2
  else if String.eqb name "h3" then GUMBO_TAG_H3
  else if String.eqb name "h4" then GUMBO_TAG_H4
  else if String.eqb name "h5" then GUMBO_TAG_H5
  else if String.eqb name "h6" then GUMBO_TAG_H6
  else GUMBO_TAG_UNKNOWN.

(** Modelled from the spec: "parent/child navigation"; the node at an
    address, if the address leads to one. *)
Fixpoint subtree (t : dom) (p : list nat) : option dom :=
  match p with
  | [] => Some t
  | i :: p' =>
      match t with
      | Element _ _ kids =>
          match kids !! i with
          | Some k => subtree k p'
          | None => None
          end
      | Leaf _ _ => None
      end
  end.

(** Modelled from the spec: [GumboInterface::get_all_nodes_with_tag], which
    is missing; "nodes tagged ... anywhere in the tree", here the element
    nodes with the given tag in document order. *)
Fixpoint nodes_with_tag (tag : GumboTag) (t : dom) (here : list nat)
    : list (list nat) :=
  match t with
  | Element name _ kids =>
      (if tag_eqb (tag_of_name name) tag then [here] else [])
      ++ (fix go (ks : list dom) (i : nat) : list (list nat) :=
            match ks with
            | [] => []
            | k :: ks' => nodes_with_tag tag k (here ++ [i]) ++ go ks' (S i)
            end) kids 0
  | Leaf _ _ => []
  end.

(** Modelled from the spec: [GumboInterface::get_local_text_of_node], which
    is missing; the "flattened text-content extraction for a node", here the
    "inline text content" of the "text nodes" below the node, in document
    order.  A run of whitespace between tags is a node of its own type,
    [GUMBO_NODE_WHITESPACE], and no text node; with it left out, as comments
    are, a heading "with only whitespace/empty text content" is one whose
    "flattened text content is empty", as the description has it. *)
Fixpoint flat_text (t : dom) : string :=
  match t with
  | Element _ _ kids =>
      (fix go (ks : list dom) : string :=
         match ks with
         | [] => EmptyString
         | k :: ks' => flat_text k +:+ go ks'
         end) kids
  | Leaf GUMBO_NODE_TEXT s => s
  | Leaf _ _ => EmptyString
  end.

(** Modelled from the spec: the [GumboInterface] object for a parsed
    document, with "tag identity, attribute lookup (name → value, empty
    default), parent/child navigation, and flattened text-content extraction
    for a node".  The parent of an address is the address without its last
    index; the root has none. *)
Definition dom_interface (root : dom) : GumboInterface (list nat) := {|
  node_type p :=
    match subtree root p with
    | Some (Leaf ty _) => ty
    | _ => GUMBO_NODE_ELEMENT
    end;
  element_tag p :=
    match subtree root p with
    | Some (Element name _ _) => tag_of_name name
    | _ => GUMBO_TAG_UNKNOWN
    end;
  element_children p :=
    match subtree root p with
    | Some (Element _ _ kids) => map (fun i => p ++ [i]) (seq 0 (length kids))
    | _ => []
    end;
  node_parent p :=
    match p with
    | [] => None
    | _ :: _ => Some (removelast p)
    end;
  get_all_nodes_with_tag tag := nodes_with_tag tag root [];
  get_tag_name p :=
    match subtree root p with
    | Some (Element name _ _) => name
    | Some (Leaf GUMBO_NODE_DOCUMENT _) => "#document"
    | Some (Leaf GUMBO_NODE_CDATA _) => "#cdata"
    | _ => "#text"
    end;
  get_local_text_of_node p :=
    match subtree root p with
    | Some t => flat_text t
    | None => EmptyString
    end;
  get_attributes_of_node p :=
    match subtree root p with
    | Some (Element _ attrs _) => list_to_map attrs
    | _ => ∅
    end
|}.

(** The detector on a [dom]. *)
Definition detect_dom (fuel : nat) (root : dom) : result bool :=
  @fixup_fullscreen_svg_images _ (dom_interface root) fuel.

Definition full_size : list (string * string) :=
  [("width", "100%"); ("height", "100%")].

(** ** The rewrite in [UpdatePage]

    The text is a sequence of 8-bit characters, a character outside ASCII
    being the bytes of its UTF-8 form.  [QRegularExpression] is not
    part of the file under study; what follows is the usual backtracking
    reading of the two patterns, which use nothing but single characters,
    character classes, greedy stars of a class and one capture group.  The
    options [MultilineOption] and [DotMatchesEverythingOption] change the
    meaning of [^], [$] and [.] only, none of which occurs.
    [QRegularExpression] matches in Unicode mode, so under
    [CaseInsensitiveOption] a letter of the pattern stands for every
    character of its case-folding class; a class can hold a character outside
    ASCII, which the 8-bit text has as the bytes of its UTF-8 form.  Such a
    letter is a [Forms] atom: one character, written in one of several ways. *)

Inductive atom : Type :=
| One (c : ascii -> bool)       (* one character of the class *)
| Many (c : ascii -> bool)      (* [c*], greedy *)
| Forms (forms : list string).  (* one character in one of its spellings *)

(** [s] without [form] in front, if it starts with it. *)
Fixpoint strip (form s : string) {struct form} : option string :=
  match form with
  | EmptyString => Some s
  | String a form' =>
      match s with
      | String b s' => if Ascii.eqb a b then strip form' s' else None
      | EmptyString => None
      end
  end.

(** Match [p] at the head of [s], which starts at offset [pos] of the text,
    then hand the rest to [k].  A star first tries to take one more
    character and gives it back when the rest fails. *)
Fixpoint match_here {R : Type} (p : list atom) (s : string) (pos : nat)
    (k : string -> nat -> option R) : option R :=
  match p with
  | [] => k s pos
  | One c :: p' =>
      match s with
      | String a s' => if c a then match_here p' s' (S pos) k else None
      | EmptyString => None
      end
  | Many c :: p' =>
      (fix many (s : string) (pos : nat) : option R :=
         match s with
         | String a s' =>
             if c a then
               match many s' (S pos) with
               | Some r => Some r
               | None => match_here p' s pos k
               end
             else match_here p' s pos k
         | EmptyString => match_here p' s pos k
         end) s pos
  | Forms forms :: p' =>
      (fix try_forms (forms : list string) : option R :=
         match forms with
         | [] => None
         | form :: forms' =>
             match strip form s with
             | Some s' =>
                 match match_here p' s' (pos + String.length form) k with
                 | Some r => Some r
                 | None => try_forms forms'
                 end
             | None => try_forms forms'
             end
         end) forms
  end.

(** A pattern with one capture group: [before(group)after]. *)
Record regex : Type := {
  before : list atom;
  group : list atom;
  after : list atom
}.

(** A match that starts exactly at the head of [s]; the answer is
    [(capturedStart(1), capturedLength(1))]. *)
Definition match_at (re : regex) (s : string) (pos : nat) : option (nat * nat) :=
  match_here (before re) s pos (fun s1 p1 =>
    match_here (group re) s1 p1 (fun s2 p2 =>
      match_here (after re) s2 p2 (fun _ _ => Some (p1, p2 - p1)))).

(** The leftmost match at or after the head of [s]. *)
Fixpoint search (re : regex) (s : string) (pos : nat) : option (nat * nat) :=
  match match_at re s pos with
  | Some r => Some r
  | None =>
      match s with
      | String _ s' => search re s' (S pos)
      | EmptyString => None
      end
  end.

(** [QRegularExpression::match(text, 0)], reduced to the first group. *)
Definition regex_match (re : regex) (text : string) : option (nat * nat) :=
  search re text 0.

(** Character classes. *)
Definition is_char (c : ascii) : ascii -> bool := Ascii.eqb c.

(** [\s]: space, HT, LF, VT, FF, CR. *)
Definition is_space (a : ascii) : bool :=
  let n := nat_of_ascii a in
  (n =? 32)%nat || ((9 <=? n)%nat && (n <=? 13)%nat).

Definition to_lower (a : ascii) : ascii :=
  let n := nat_of_ascii a in
  if (65 <=? n)%nat && (n <=? 90)%nat then ascii_of_nat (n + 32) else a.

Definition to_upper (a : ascii) : ascii :=
  let n := nat_of_ascii a in
  if (97 <=? n)%nat && (n <=? 122)%nat then ascii_of_nat (n - 32) else a.

Definition char (a : ascii) : string := String a EmptyString.

(** U+017F LATIN SMALL LETTER LONG S and U+212A KELVIN SIGN in UTF-8. *)
Definition long_s : string :=
  String (ascii_of_nat 197) (String (ascii_of_nat 191) EmptyString).

Definition kelvin_sign : string :=
  String (ascii_of_nat 226)
    (String (ascii_of_nat 132) (String (ascii_of_nat 170) EmptyString)).

(** The spellings of the characters that an ASCII character of the pattern
    matches under [CaseInsensitiveOption]: a letter matches its lower and
    upper case, and of all other characters only [s] and [k] have one more in
    their class, the long s and the Kelvin sign. *)
Definition case_forms (a : ascii) : list string :=
  let l := to_lower a in
  let u := to_upper a in
  if Ascii.eqb l "s"%char then [char l; char u; long_s]
  else if Ascii.eqb l "k"%char then [char l; char u; kelvin_sign]
  else if Ascii.eqb l u then [char a]
  else [char l; char u].

Definition is_quote (a : ascii) : bool :=
  Ascii.eqb a (ascii_of_nat 34) || Ascii.eqb a "'"%char.

Definition not_gt (a : ascii) : bool := negb (Ascii.eqb a ">"%char).

Fixpoint literal (s : string) : list atom :=
  match s with
  | EmptyString => []
  | String a s' => One (is_char a) :: literal s'
  end.

Fixpoint letters (s : string) : list atom :=
  match s with
  | EmptyString => []
  | String a s' => Forms (case_forms a) :: letters s'
  end.

(** [<\s*svg\s[^>]*ATTR\s*=\s*["'](100%)["'][^>]*>] *)
Definition svg_attr_regex (attr : string) : regex := {|
  before :=
    [One (is_char "<"%char); Many is_space] ++ letters "svg"
    ++ [One is_space; Many not_gt] ++ letters attr
    ++ [Many is_space; One (is_char "="%char); Many is_space; One is_quote];
  group := literal "100%";
  after := [One is_quote; Many not_gt; One (is_char ">"%char)]
|}.

Definition svg_height : regex := svg_attr_regex "height".
Definition svg_width : regex := svg_attr_regex "width".

(** [QString::left(n)] and [QString::mid(n)]. *)
Fixpoint left (n : nat) (s : string) : string :=
  match n, s with
  | S n', String a s' => String a (left n' s')
  | _, _ => EmptyString
  end.

Fixpoint mid (n : nat) (s : string) : string :=
  match n, s with
  | S n', String _ s' => mid n' s'
  | _, _ => s
  end.

(** [QString::replace(position, n, after)]: nothing happens when [position]
    lies behind the end, and [n] is cut to what is left of the string. *)
Definition replace (s : string) (position n : nat) (after_ : string) : string :=
  if (String.length s <? position)%nat then s
  else left position s +:+ after_ +:+ mid (position + n) s.

(** One of the two [if (mo.hasMatch())] blocks. *)
Definition substitute (re : regex) (after_ : string) (text : string) : string :=
  match regex_match re text with
  | Some (bp, n) => replace text bp n after_
  | None => text
  end.

(** A parser result: some node type with the interface over it. *)
Record ParsedDocument : Type := {
  Node_of : Type;
  interface_of : GumboInterface Node_of
}.

Section UpdatePage.

(** [GumboInterface(text, "any_version")]: the repair parser, external. *)
Variable parse : string -> ParsedDocument.

(** [fixup_fullscreen_svg_images(text)] as [UpdatePage] calls it. *)
Definition fixup_text (fuel : nat) (text : string) : result bool :=
  @fixup_fullscreen_svg_images _ (interface_of (parse text)) fuel.

(** Lines 297-319 of [UpdatePage]: what becomes of [text]. *)
Definition UpdatePage_svg_fixup (fuel : nat) (text : string) : result string :=
  let* detected := fixup_text fuel text in
  if detected then
    let text := substitute svg_height "100vh" text in
    let text := substitute svg_width "100vw" text in
    Done text
  else Done text.

End UpdatePage.

(** *** Notions in which the rewrite is described *)

(** [accepts p m]: the string [m] as a whole is matched by [p]. *)
Inductive accepts : list atom -> string -> Prop :=
| accepts_nil : accepts [] EmptyString
| accepts_one (c : ascii -> bool) (p : list atom) (a : ascii) (m : string) :
    c a = true -> accepts p m -> accepts (One c :: p) (String a m)
| accepts_many_stop (c : ascii -> bool) (p : list atom) (m : string) :
    accepts p m -> accepts (Many c :: p) m
| accepts_many_more (c : ascii -> bool) (p : list atom) (a : ascii) (m : string) :
    c a = true -> accepts (Many c :: p) m -> accepts (Many c :: p) (String a m)
| accepts_forms (forms : list string) (p : list atom) (form m : string) :
    In form forms -> accepts p m -> accepts (Forms forms :: p) (form +:+ m).

(** [exchanges re new s s']: the pattern matches and [s'] is [s] with the
    captured token exchanged.  [s] splits into [pre m1 100% m3 post] where
    [m1 100% m3] is matched by the pattern, no match starts inside [pre], and
    only the captured [100%] gives way to [new]. *)
Definition exchanges (re : regex) (new s s' : string) : Prop :=
  exists pre m1 m3 post : string,
    s = pre +:+ m1 +:+ "100%" +:+ m3 +:+ post
    /\ s' = pre +:+ m1 +:+ new +:+ m3 +:+ post
    /\ accepts (before re) m1
    /\ accepts (after re) m3
    /\ regex_match re s = Some (String.length pre + String.length m1, 4)
    /\ forall k, k < String.length pre ->
         match_at re (mid k s) k = None.

(** [rewrites re new s s']: [s'] is [s] after one of the two blocks: the
    pattern finds nothing and the text stays, or the token is exchanged. *)
Definition rewrites (re : regex) (new s s' : string) : Prop :=
  (regex_match re s = None /\ s' = s) \/ exchanges re new s s'.




(** ** Documents of the examples *)

Definition svg_image (attrs : list (string * string)) : dom :=
  Element "svg" attrs [Element "image" [] []].

Definition page (body_children : list dom) : dom :=
  Element "html" [] [Element "head" [] []; Element "body" [] body_children].

(** [<body><div><svg width="100%" height="100%"><image/></svg></div></body>] *)
Definition doc_div_svg : dom := page [Element "div" [] [svg_image full_size]].

(** [<body><svg width="100%" height="100%"><image/></svg></body>] *)
Definition doc_svg : dom := page [svg_image full_size].

(** Two images in the one svg. *)
Definition doc_two_images : dom :=
  page [Element "div" []
          [Element "svg" full_size [Element "image" [] []; Element "image" [] []]]].

(** [body > div > div > svg > image] *)
Definition doc_nested_divs : dom :=
  page [Element "div" [] [Element "div" [] [svg_image full_size]]].

(** [body > div > style > svg > image] *)
Definition doc_style_wrapper : dom :=
  page [Element "div" [] [Element "style" [] [svg_image full_size]]].

(** A heading without any text before the div. *)
Definition doc_empty_heading : dom :=
  page [Element "h1" [] []; Element "div" [] [svg_image full_size]].

(** A heading that holds one blank before the div. *)
Definition doc_blank_heading : dom :=
  page [Element "h1" [] [Leaf GUMBO_NODE_WHITESPACE " "];
        Element "div" [] [svg_image full_size]].

(** [<body><script>var a;</script><div><svg ...><image/></svg></div></body>] *)
Definition doc_script_then_div : dom :=
  page [Element "script" [] [Leaf GUMBO_NODE_TEXT "var a;"];
        Element "div" [] [svg_image full_size]].

(** A heading with text before the div. *)
Definition doc_titled : dom :=
  page [Element "h1" [] [Leaf GUMBO_NODE_TEXT "Cover"];
        Element "div" [] [svg_image full_size]].

(** [height="99%"] *)
Definition doc_height_99 : dom :=
  page [Element "div" [] [svg_image [("width", "100%"); ("height", "99%")]]].

(** No [height] attribute. *)
Definition doc_no_height : dom :=
  page [Element "div" [] [svg_image [("width", "100%")]]].

(** Three paragraphs-like children after which nothing else matters. *)
Definition doc_three_children : dom :=
  page [Element "div" [] [svg_image full_size];
        Element "p" [] [Leaf GUMBO_NODE_TEXT "one"];
        Element "p" [] [Leaf GUMBO_NODE_TEXT "two"]].

(** Markup whose attribute values carry no quotes; a repair parser reads it
    as [doc_svg]. *)
Definition text_unquoted : string :=
  "<body><svg width=100% height=100%><image/></svg></body>".

Definition text_quoted : string :=
  "<body><div><svg width='100%' height='100%'><image/></svg></div></body>".

(** A comment in front of the div that holds an svg start tag spelled with
    the long s, in the tree and in the text. *)
Definition long_s_tag : string :=
  " <" +:+ long_s +:+ "vg width='100%' height='100%'> ".

Definition doc_long_s_comment : dom :=
  page [Leaf GUMBO_NODE_COMMENT long_s_tag;
        Element "div" [] [svg_image full_size]].

Definition text_long_s_comment : string :=
  "<body><!--" +:+ long_s_tag
  +:+ "--><div><svg width='100%' height='100%'><image/></svg></div></body>".

Definition parsed (root : dom) : ParsedDocument :=
  {| Node_of := list nat; interface_of := dom_interface root |}.

(** The notions of the detector on a [dom], for the examples. *)
Definition path_in (root : dom) (fuel : nat) (node : list nat)
    : result (list string) :=
  @ancestor_path _ (dom_interface root) fuel node.

Definition climb_in (root : dom) (node : list nat) (l : list (list nat)) : Prop :=
  @climb _ (dom_interface root) node l.

Definition described_path_in (root : dom) (node : list nat)
    (l : list (list nat)) : list string :=
  @described_path _ (dom_interface root) node l.

Definition text_in (root : dom) (node : list nat) : string :=
  @get_local_text_of_node _ (dom_interface root) node.

Definition name_in (root : dom) (node : list nat) : string :=
  @get_tag_name _ (dom_interface root) node.

Definition nodes_in (root : dom) (tag : GumboTag) : list (list nat) :=
  @get_all_nodes_with_tag _ (dom_interface root) tag.

(** A node whose parent link leads back to itself: the walk never ends. *)
Definition looping_interface : GumboInterface unit := {|
  node_type _ := GUMBO_NODE_ELEMENT;
  element_tag _ := GUMBO_TAG_IMAGE;
  element_children _ := [];
  node_parent _ := Some tt;
  get_all_nodes_with_tag _ := [tt];
  get_tag_name _ := "image";
  get_local_text_of_node _ := EmptyString;
  get_attributes_of_node _ := ∅
|}.

(** ** The window's other functions

    [PreviewWindow] below holds the data members that the functions of the
    file read and write, and of the widgets the window owns (the web view,
    the progress bar, the overlay timer, the dock widget itself) the few
    values these functions set or ask for.  Calls that only paint, zoom,
    log or move the caret leave all of these values alone and are left out. *)

(** *** More of [QString] *)

Definition dquote : string := String (ascii_of_nat 34) EmptyString.
Definition newline : string := String (ascii_of_nat 10) EmptyString.

(** [QString::startsWith]. *)
Fixpoint startsWith (s needle : string) {struct needle} : bool :=
  match needle with
  | EmptyString => true
  | String a needle' =>
      match s with
      | String b s' => Ascii.eqb a b && startsWith s' needle'
      | EmptyString => false
      end
  end.

(** The offset of the first occurrence of [needle] in [s], where the head of
    [s] has offset [pos]. *)
Fixpoint index_from (s needle : string) (pos : nat) : option nat :=
  if startsWith s needle then Some pos
  else
    match s with
    | String _ s' => index_from s' needle (S pos)
    | EmptyString => None
    end.

(** [QString::indexOf(needle)]: [-1] when there is no occurrence. *)
Definition indexOf (s needle : string) : Z :=
  match index_from s needle 0 with
  | Some i => Z.of_nat i
  | None => (-1)%Z
  end.

(** [QString::contains(needle)]. *)
Definition contains_string (s needle : string) : bool :=
  negb (indexOf s needle =? -1)%Z.

Fixpoint spaces (n : nat) : string :=
  match n with
  | O => EmptyString
  | S n' => String " "%char (spaces n')
  end.

(** [QString::insert(position, str)]: a negative position or an empty [str]
    changes nothing; a position behind the end pads with blanks first. *)
Definition insert (s : string) (position : Z) (str : string) : string :=
  if (position <? 0)%Z || isEmpty str then s
  else
    let i := Z.to_nat position in
    if (String.length s <? i)%nat
    then s +:+ spaces (i - String.length s) +:+ str
    else left i s +:+ str +:+ mid i s.

(** [QString::prepend(str)]. *)
Definition prepend (s str : string) : string := str +:+ s.

(** *** Offsets

    [indexOf], [insert], [left], [mid], [replace] and the matcher count the
    8-bit characters of the text, [QString] its 16-bit units.  An offset that
    one of them returns and another takes marks the same place in the text
    in either count.  As a number it is the one [QString] has only when no
    character outside ASCII comes before the place, so where the code tests
    the number itself, the model tests [qt_offset]. *)

(** The 16-bit units that a byte of UTF-8 stands for: the first byte of a
    character counts, twice for a character beyond U+FFFF, which takes two
    units; a byte that continues a character ([10xxxxxx]) does not. *)
Definition utf16_units (a : ascii) : nat :=
  let n := nat_of_ascii a in
  if (n <? 128)%nat then 1
  else if (n <? 192)%nat then 0
  else if (n <? 240)%nat then 1
  else 2.

(** [QString::length] of the text. *)
Fixpoint utf16_length (s : string) : nat :=
  match s with
  | EmptyString => 0
  | String a s' => utf16_units a + utf16_length s'
  end.

(** The offset that [QString] has for the place at offset [position] of
    [s]; [-1], for no place at all, stays as it is. *)
Definition qt_offset (s : string) (position : Z) : Z :=
  if (position <? 0)%Z then position
  else Z.of_nat (utf16_length (left (Z.to_nat position) s)).

(** *** The injections of [UpdatePage] *)

(** Both injections: [text.indexOf("</head>")], then [text.insert] when the
    offset is greater than 1. *)
Definition inject_before_head (inject text : string) : string :=
  let endheadpos := indexOf text "</head>" in
  if (1 <? qt_offset text endheadpos)%Z
  then insert text endheadpos inject
  else text.

(** [inject_userstyles] for a stylesheet url. *)
Definition user_stylesheet_link (usercssurl : string) : string :=
  "<link rel=" +:+ dquote +:+ "stylesheet" +:+ dquote
  +:+ " type=" +:+ dquote +:+ "text/css" +:+ dquote
  +:+ " href=" +:+ dquote +:+ usercssurl +:+ dquote +:+ " />" +:+ newline.

(** [inject_mathjax] for a MathJax url. *)
Definition mathjax_script (mathjaxurl : string) : string :=
  "<script type=" +:+ dquote +:+ "text/javascript" +:+ dquote
  +:+ " async=" +:+ dquote +:+ "async" +:+ dquote
  +:+ " src=" +:+ dquote +:+ mathjaxurl +:+ dquote +:+ "></script>" +:+ newline.

(** [QRegularExpression mathused("<\\s*math [^>]*>")], no options: a
    pattern without a group is one whose group is empty. *)
Definition mathused : regex := {|
  before :=
    [One (is_char "<"%char); Many is_space] ++ literal "math "
    ++ [Many not_gt; One (is_char ">"%char)];
  group := [];
  after := []
|}.

(** [QRegularExpressionMatch::hasMatch]. *)
Definition hasMatch (re : regex) (text : string) : bool :=
  match regex_match re text with
  | Some _ => true
  | None => false
  end.

(** Lines 270-281. *)
Definition inject_user_stylesheet (usercssurl text : string) : string :=
  if negb (isEmpty usercssurl)
  then inject_before_head (user_stylesheet_link usercssurl) text
  else text.

(** Lines 283-295. *)
Definition inject_mathjax (mathjaxurl text : string) : string :=
  if hasMatch mathused text
  then inject_before_head (mathjax_script mathjaxurl) text
  else text.

(** *** The state *)

(** [struct ElementIndex { QString name; int index; }]. *)
Definition ElementIndex : Type := string * Z.

(** The members [m_Filepath] to [m_mathjaxurl] are those of the class.  Of
    the view [m_Preview]: [isVisible()], [width()], [height()], the
    arguments of the last [CustomSetDocument] and whether its overlay is
    shown.  Of [m_progress]: [value()], [None] after [reset()].  Of
    [m_OverlayTimer]: [isActive()].  Of the dock widget: [windowTitle()] and
    [isFloating()]. *)
Record PreviewWindow : Type := {
  m_Filepath : string;
  m_titleText : string;
  m_updatingPage : bool;
  m_location : list ElementIndex;
  m_usercssurl : string;
  m_mathjaxurl : string;
  preview_visible : bool;
  preview_width : Z;
  preview_height : Z;
  preview_document : option (string * string);
  overlay_shown : bool;
  progress_value : option Z;
  overlay_timer_active : bool;
  windowTitle : string;
  isFloating : bool
}.

Definition set_m_Filepath (v : string) (w : PreviewWindow) : PreviewWindow :=
  {| m_Filepath := v;
     m_titleText := m_titleText w;
     m_updatingPage := m_updatingPage w;
     m_location := m_location w;
     m_usercssurl := m_usercssurl w;
     m_mathjaxurl := m_mathjaxurl w;
     preview_visible := preview_visible w;
     preview_width := preview_width w;
     preview_height := preview_height w;
     preview_document := preview_document w;
     overlay_shown := overlay_shown w;
     progress_value := progress_value w;
     overlay_timer_active := overlay_timer_active w;
     windowTitle := windowTitle w;
     isFloating := isFloating w |}.

Definition set_m_titleText (v : string) (w : PreviewWindow) : PreviewWindow :=
  {| m_Filepath := m_Filepath w;
     m_titleText := v;
     m_updatingPage := m_updatingPage w;
     m_location := m_location w;
     m_usercssurl := m_usercssurl w;
     m_mathjaxurl := m_mathjaxurl w;
     preview_visible := preview_visible w;
     preview_width := preview_width w;
     preview_height := preview_height w;
     preview_document := preview_document w;
     overlay_shown := overlay_shown w;
     progress_value := progress_value w;
     overlay_timer_active := overlay_timer_active w;
     windowTitle := windowTitle w;
     isFloating := isFloating w |}.

Definition set_m_updatingPage (v : bool) (w : PreviewWindow) : PreviewWindow :=
  {| m_Filepath := m_Filepath w;
     m_titleText := m_titleText w;
     m_updatingPage := v;
     m_location := m_location w;
     m_usercssurl := m_usercssurl w;
     m_mathjaxurl := m_mathjaxurl w;
     preview_visible := preview_visible w;
     preview_width := preview_width w;
     preview_height := preview_height w;
     preview_document := preview_document w;
     overlay_shown := overlay_shown w;
     progress_value := progress_value w;
     overlay_timer_active := overlay_timer_active w;
     windowTitle := windowTitle w;
     isFloating := isFloating w |}.

Definition set_m_location (v : list ElementIndex) (w : PreviewWindow) : PreviewWindow :=
  {| m_Filepath := m_Filepath w;
     m_titleText := m_titleText w;
     m_updatingPage := m_updatingPage w;
     m_location := v;
     m_usercssurl := m_usercssurl w;
     m_mathjaxurl := m_mathjaxurl w;
     preview_visible := preview_visible w;
     preview_width := preview_width w;
     preview_height := preview_height w;
     preview_document := preview_document w;
     overlay_shown := overlay_shown w;
     progress_value := progress_value w;
     overlay_timer_active := overlay_timer_active w;
     windowTitle := windowTitle w;
     isFloating := isFloating w |}.

Definition set_preview_visible (v : bool) (w : PreviewWindow) : PreviewWindow :=
  {| m_Filepath := m_Filepath w;
     m_titleText := m_titleText w;
     m_updatingPage := m_updatingPage w;
     m_location := m_location w;
     m_usercssurl := m_usercssurl w;
     m_mathjaxurl := m_mathjaxurl w;
     preview_visible := v;
     preview_width := preview_width w;
     preview_height := preview_height w;
     preview_document := preview_document w;
     overlay_shown := overlay_shown w;
     progress_value := progress_value w;
     overlay_timer_active := overlay_timer_active w;
     windowTitle := windowTitle w;
     isFloating := isFloating w |}.

Definition set_preview_document (v : option (string * string)) (w : PreviewWindow) : PreviewWindow :=
  {| m_Filepath := m_Filepath w;
     m_titleText := m_titleText w;
     m_updatingPage := m_updatingPage w;
     m_location := m_location w;
     m_usercssurl := m_usercssurl w;
     m_mathjaxurl := m_mathjaxurl w;
     preview_visible := preview_visible w;
     preview_width := preview_width w;
     preview_height := preview_height w;
     preview_document := v;
     overlay_shown := overlay_shown w;
     progress_value := progress_value w;
     overlay_timer_active := overlay_timer_active w;
     windowTitle := windowTitle w;
     isFloating := isFloating w |}.

Definition set_overlay_shown (v : bool) (w : PreviewWindow) : PreviewWindow :=
  {| m_Filepath := m_Filepath w;
     m_titleText := m_titleText w;
     m_updatingPage := m_updatingPage w;
     m_location := m_location w;
     m_usercssurl := m_usercssurl w;
     m_mathjaxurl := m_mathjaxurl w;
     preview_visible := preview_visible w;
     preview_width := preview_width w;
     preview_height := preview_height w;
     preview_document := preview_document w;
     overlay_shown := v;
     progress_value := progress_value w;
     overlay_timer_active := overlay_timer_active w;
     windowTitle := windowTitle w;
     isFloating := isFloating w |}.

Definition set_progress_value (v : option Z) (w : PreviewWindow) : PreviewWindow :=
  {| m_Filepath := m_Filepath w;
     m_titleText := m_titleText w;
     m_updatingPage := m_updatingPage w;
     m_location := m_location w;
     m_usercssurl := m_usercssurl w;
     m_mathjaxurl := m_mathjaxurl w;
     preview_visible := preview_visible w;
     preview_width := preview_width w;
     preview_height := preview_height w;
     preview_document := preview_document w;
     overlay_shown := overlay_shown w;
     progress_value := v;
     overlay_timer_active := overlay_timer_active w;
     windowTitle := windowTitle w;
     isFloating := isFloating w |}.

Definition set_overlay_timer_active (v : bool) (w : PreviewWindow) : PreviewWindow :=
  {| m_Filepath := m_Filepath w;
     m_titleText := m_titleText w;
     m_updatingPage := m_updatingPage w;
     m_location := m_location w;
     m_usercssurl := m_usercssurl w;
     m_mathjaxurl := m_mathjaxurl w;
     preview_visible := preview_visible w;
     preview_width := preview_width w;
     preview_height := preview_height w;
     preview_document := preview_document w;
     overlay_shown := overlay_shown w;
     progress_value := progress_value w;
     overlay_timer_active := v;
     windowTitle := windowTitle w;
     isFloating := isFloating w |}.

Definition set_windowTitle (v : string) (w : PreviewWindow) : PreviewWindow :=
  {| m_Filepath := m_Filepath w;
     m_titleText := m_titleText w;
     m_updatingPage := m_updatingPage w;
     m_location := m_location w;
     m_usercssurl := m_usercssurl w;
     m_mathjaxurl := m_mathjaxurl w;
     preview_visible := preview_visible w;
     preview_width := preview_width w;
     preview_height := preview_height w;
     preview_document := preview_document w;
     overlay_shown := overlay_shown w;
     progress_value := progress_value w;
     overlay_timer_active := overlay_timer_active w;
     windowTitle := v;
     isFloating := isFloating w |}.

(** The window as the constructor leaves it, for given urls: no file, no
    title text, no load under way, the progress bar reset. *)
Definition constructed (usercssurl mathjaxurl title : string)
    (visible floating : bool) (width height : Z) : PreviewWindow :=
  {| m_Filepath := EmptyString;
     m_titleText := EmptyString;
     m_updatingPage := false;
     m_location := [];
     m_usercssurl := usercssurl;
     m_mathjaxurl := mathjaxurl;
     preview_visible := visible;
     preview_width := width;
     preview_height := height;
     preview_document := None;
     overlay_shown := false;
     progress_value := None;
     overlay_timer_active := false;
     windowTitle := title;
     isFloating := floating |}.

(** *** The functions *)

(** [PreviewWindow::ShowOverlay], the slot of the overlay timer. *)
Definition ShowOverlay (w : PreviewWindow) : PreviewWindow :=
  set_overlay_shown true (set_overlay_timer_active false w).

(** [PreviewWindow::IsVisible]. *)
Definition IsVisible (w : PreviewWindow) : bool := preview_visible w.

(** [PreviewWindow::setProgress]. *)
Definition setProgress (val : Z) (w : PreviewWindow) : PreviewWindow :=
  if (10 <? val)%Z && (val <? 100)%Z
  then set_progress_value (Some val) w
  else w.

(** [PreviewWindow::setTitleText]. *)
Definition setTitleText (text : string) (w : PreviewWindow) : PreviewWindow :=
  set_m_titleText text w.

(** [PreviewWindow::titleText]. *)
Definition titleText (w : PreviewWindow) : string :=
  if isEmpty (m_titleText w) then windowTitle w else m_titleText w.

(** [PreviewWindow::ReloadPreview]; the signal [RequestPreviewReload] that
    it emits at the end is no part of the state. *)
Definition ReloadPreview (w : PreviewWindow) : PreviewWindow :=
  set_m_updatingPage false
    (set_overlay_shown false
       (set_overlay_timer_active false
          (set_progress_value None w))).

(** A [QUrl], as far as [LinkClicked] asks: [toString()] and [scheme()]. *)
Record QUrl : Type := {
  toString : string;
  scheme : string
}.

Section Window.

(** [tr("Preview")], [QString::number(int)] and
    [QFileInfo(path).fileName()]. *)
Variable tr_Preview : string.
Variable number : Z -> string.
Variable fileName : string -> string.

(** [PreviewWindow::UpdateWindowTitle]. *)
Definition UpdateWindowTitle (w : PreviewWindow) : PreviewWindow :=
  let w :=
    if preview_visible w then
      let height := preview_height w in
      let width := preview_width w in
      let filename :=
        if negb (isEmpty (m_Filepath w)) then fileName (m_Filepath w)
        else EmptyString in
      setTitleText (tr_Preview +:+ " (" +:+ number width +:+ "x"
                    +:+ number height +:+ ") " +:+ filename) w
    else w in
  if isFloating w then set_windowTitle (titleText w) w
  else set_windowTitle tr_Preview w.

(** [PreviewWindow::previewFloated]. *)
Definition previewFloated (wasFloated : bool) (w : PreviewWindow) : PreviewWindow :=
  if wasFloated then UpdateWindowTitle w else w.

(** [PreviewWindow::UpdatePageDone]. *)
Definition UpdatePageDone (w : PreviewWindow) : PreviewWindow :=
  let w := UpdateWindowTitle w in
  let w := set_overlay_timer_active false w in
  let w := set_progress_value (Some 100%Z) w in
  let w := set_progress_value None w in
  let w := set_overlay_shown false w in
  set_m_updatingPage false w.

(** [PreviewWindow::LinkClicked]: the url of the [OpenUrlRequest] that is
    emitted, if one is. *)
Definition LinkClicked (url : QUrl) (w : PreviewWindow) : option string :=
  if isEmpty (toString url) then None
  else
    let url_string := toString url in
    let url_string :=
      if startsWith url_string "#"
      then prepend url_string (fileName (m_Filepath w))
      else if String.eqb (scheme url) "file" then
        if contains_string url_string "/#"
        then insert url_string (indexOf url_string "/#" + 1)
                    (fileName (m_Filepath w))
        else url_string
      else url_string in
    Some url_string.

(** The repair parser, [Utility::IsDarkMode() && settings.previewDark()]
    and [Utility::AddDarkCSS]. *)
Variable parse : string -> ParsedDocument.
Variable dark : bool.
Variable AddDarkCSS : string -> string.

(** The text that [UpdatePage] hands to the view, lines 262-319. *)
Definition prepared_text (fuel : nat) (w : PreviewWindow) (text : string)
    : result string :=
  let text := if dark then AddDarkCSS text else text in
  let text := inject_user_stylesheet (m_usercssurl w) text in
  let text := inject_mathjax (m_mathjaxurl w) text in
  UpdatePage_svg_fixup parse fuel text.

(** [PreviewWindow::UpdatePage]. *)
Definition UpdatePage (fuel : nat) (filename_url text : string)
    (location : list ElementIndex) (w : PreviewWindow)
    : result (PreviewWindow * bool) :=
  if negb (preview_visible w) then Done (w, true)
  else if m_updatingPage w then Done (w, false)
  else
    let w := set_progress_value (Some 0%Z) w in
    let w := set_overlay_timer_active true w in
    let w := set_m_updatingPage true w in
    let w := set_m_location location w in
    let* text := prepared_text fuel w text in
    let w := set_m_Filepath filename_url w in
    let w := set_preview_document (Some (filename_url, text)) w in
    let w := set_progress_value (Some 10%Z) w in
    Done (w, true).

(** What can happen to the window, one call at a time.  [Timeout] is the
    overlay timer firing, which Qt delivers only while the timer is active;
    [Visibility] is the view being shown or hidden. *)
Inductive action : Type :=
| CallUpdatePage (fuel : nat) (filename_url text : string)
                 (location : list ElementIndex)
| CallUpdatePageDone
| CallReloadPreview
| CallSetProgress (val : Z)
| CallUpdateWindowTitle
| CallPreviewFloated (wasFloated : bool)
| Timeout
| Visibility (visible : bool).

Definition perform (a : action) (w : PreviewWindow) : result PreviewWindow :=
  match a with
  | CallUpdatePage fuel filename_url text location =>
      let* r := UpdatePage fuel filename_url text location w in Done (fst r)
  | CallUpdatePageDone => Done (UpdatePageDone w)
  | CallReloadPreview => Done (ReloadPreview w)
  | CallSetProgress val => Done (setProgress val w)
  | CallUpdateWindowTitle => Done (UpdateWindowTitle w)
  | CallPreviewFloated wasFloated => Done (previewFloated wasFloated w)
  | Timeout => Done (if overlay_timer_active w then ShowOverlay w else w)
  | Visibility visible => Done (set_preview_visible visible w)
  end.

Fixpoint run (actions : list action) (w : PreviewWindow) : result PreviewWindow :=
  match actions with
  | [] => Done w
  | a :: rest => let* w' := perform a w in run rest w'
  end.

End Window.

(** *** Notions in which the injections are described *)

(** [needle] occurs in [text] right after [pre], and nowhere earlier. *)
Definition first_occurrence (needle text pre rest : string) : Prop :=
  text = pre +:+ needle +:+ rest
  /\ forall k, k < String.length pre -> startsWith (mid k text) needle = false.

(** [needle] does not occur in [text]. *)
Definition absent (needle text : string) : Prop :=
  forall k, startsWith (mid k text) needle = false.

(** Every character of [s] is in the class [c]. *)
Fixpoint all_in (c : ascii -> bool) (s : string) : bool :=
  match s with
  | EmptyString => true
  | String a s' => c a && all_in c s'
  end.

(** [P] holds of some piece of [text]. *)
Definition occurs_in (P : string -> Prop) (text : string) : Prop :=
  exists pre m post : string, text = pre +:+ m +:+ post /\ P m.

(** A start tag that makes [UpdatePage] load MathJax: [<], blanks if any,
    [math], one space, then anything up to the next [>]. *)
Definition math_start_tag (m : string) : Prop :=
  exists ws attrs : string,
    m = "<" +:+ ws +:+ "math " +:+ attrs +:+ ">"
    /\ all_in is_space ws = true
    /\ all_in not_gt attrs = true.

(** A piece of markup that one of the two svg patterns matches as a whole,
    with [100%] as the captured token. *)
Definition svg_dimension_tag (re : regex) (m : string) : Prop :=
  exists m1 m3 : string,
    m = m1 +:+ "100%" +:+ m3
    /\ accepts (before re) m1
    /\ accepts (after re) m3.

(** The window between loads and during one: the overlay timer runs and the
    overlay shows only while a load is under way, and while a load is under
    way the progress bar shows a value; every value it shows lies between 10
    and 99. *)
Definition loading_consistent (w : PreviewWindow) : Prop :=
  (overlay_timer_active w = true -> m_updatingPage w = true)
  /\ (overlay_shown w = true -> m_updatingPage w = true)
  /\ (m_updatingPage w = true -> exists v, progress_value w = Some v)
  /\ (forall v, progress_value w = Some v -> (10 <= v <= 99)%Z).

(** * Properties *)

(** ** Small facts about the helpers *)

Lemma node_type_eqb_eq (a b : GumboNodeType) :
  node_type_eqb a b = true <-> a = b.
Proof. destruct a, b; simpl; split; congruence. Qed.

Lemma tag_eqb_eq (a b : GumboTag) : tag_eqb a b = true <-> a = b.
Proof. destruct a, b; simpl; split; congruence. Qed.

Lemma contains_In (l : list string) (s : string) :
  contains l s = true <-> In s l.
Proof.
  unfold contains. rewrite existsb_exists. split.
  - intros (x & Hx & Heq). apply String.eqb_eq in Heq. now subst.
  - intros Hin. exists s. split; [assumption | apply String.eqb_refl].
Qed.

Lemma isEmpty_eq (s : string) : isEmpty s = true <-> s = EmptyString.
Proof. destruct s; simpl; split; congruence. Qed.

Lemma keeps_name_iff (name : string) :
  keeps_name name = true <-> name <> "script" /\ name <> "style".
Proof.
  unfold keeps_name.
  rewrite andb_true_iff, !negb_true_iff, !String.eqb_neq. reflexivity.
Qed.

Lemma length_1_inv {A : Type} (l : list A) :
  length l = 1 -> exists a, l = [a].
Proof. destruct l as [|a [|b l]]; simpl; intros H; try discriminate; eauto. Qed.

Section DetectorFacts.

Context {Node : Type} `{gi : GumboInterface Node}.

(** The scan's notion of a counted child is the described one. *)
Lemma significant_iff (child : Node) :
  significant child = true <-> is_significant child.
Proof.
  unfold significant, is_significant, ignore_tag.
  rewrite andb_true_iff, node_type_eqb_eq, negb_true_iff.
  destruct (contains HEADERTAGS (get_tag_name child)) eqn:Hh.
  - apply contains_In in Hh.
    rewrite !orb_false_iff, !String.eqb_neq.
    split.
    + intros (Ht & (Hs & Hy) & He). repeat split; try assumption.
      intros [_ Hempty]. apply isEmpty_eq in Hempty. congruence.
    + intros (Ht & Hs & Hy & Hne). repeat split; try assumption.
      destruct (isEmpty (get_local_text_of_node child)) eqn:He; [|reflexivity].
      exfalso. apply Hne. split; [assumption | now apply isEmpty_eq].
  - rewrite orb_false_iff, !String.eqb_neq.
    split.
    + intros (Ht & Hs & Hy). repeat split; try assumption.
      intros [Hin _]. apply contains_In in Hin. congruence.
    + intros (Ht & Hs & Hy & _). repeat split; assumption.
Qed.

(** What the scan with the early exit computes from the counted children:
    it records the first two of them at most. *)
Lemma scan_children_counted (children : list Node) :
  forall (child_names : list string) (elcount : nat),
    elcount <= 1 ->
    scan_children children child_names elcount
    = (child_names
         ++ map get_tag_name (take (2 - elcount) (List.filter significant children)),
       elcount + length (take (2 - elcount) (List.filter significant children))).
Proof.
  induction children as [|child rest IH]; intros names n Hn; simpl.
  - rewrite take_nil. simpl. rewrite app_nil_r. f_equal. lia.
  - destruct (node_type_eqb (node_type child) GUMBO_NODE_ELEMENT) eqn:Ht.
    + destruct (ignore_tag child) eqn:Hi; simpl.
      * assert (Hsig : significant child = false)
          by (unfold significant; rewrite Ht, Hi; reflexivity).
        assert (Hlt : (1 <? n)%nat = false) by (apply Nat.ltb_ge; lia).
        rewrite Hsig, Hlt. apply IH. assumption.
      * assert (Hsig : significant child = true)
          by (unfold significant; rewrite Ht, Hi; reflexivity).
        rewrite Hsig.
        destruct n as [|[|n]]; simpl; [| |lia].
        -- rewrite IH by lia. simpl. rewrite <- app_assoc. reflexivity.
        -- reflexivity.
    + assert (Hsig : significant child = false)
        by (unfold significant; rewrite Ht; reflexivity).
      rewrite Hsig. apply IH. assumption.
Qed.

(** The tally never exceeds 2, so the C++ [int] cannot overflow. *)
Lemma scan_children_tally_bound (children : list Node) :
  snd (scan_children children [] 0) <= 2.
Proof.
  rewrite scan_children_counted by lia. simpl.
  rewrite length_take. lia.
Qed.

Lemma scan_every_child_counted (children : list Node) :
  forall (child_names : list string) (elcount : nat),
    scan_every_child children child_names elcount
    = (child_names ++ map get_tag_name (List.filter significant children),
       elcount + length (List.filter significant children)).
Proof.
  induction children as [|child rest IH]; intros names n; simpl.
  - rewrite app_nil_r. f_equal. lia.
  - destruct (node_type_eqb (node_type child) GUMBO_NODE_ELEMENT) eqn:Ht.
    + destruct (ignore_tag child) eqn:Hi; simpl.
      * assert (Hsig : significant child = false)
          by (unfold significant; rewrite Ht, Hi; reflexivity).
        rewrite Hsig. apply IH.
      * assert (Hsig : significant child = true)
          by (unfold significant; rewrite Ht, Hi; reflexivity).
        rewrite Hsig, IH. rewrite <- app_assoc. simpl. f_equal. lia.
    + assert (Hsig : significant child = false)
        by (unfold significant; rewrite Ht; reflexivity).
      rewrite Hsig. apply IH.
Qed.

Lemma child_check_scan_children (children : list Node) :
  child_check_fails (scan_children children [] 0)
  = Done (child_verdict (List.filter significant children)).
Proof.
  rewrite scan_children_counted by lia.
  destruct (List.filter significant children) as [|a [|b l]]; reflexivity.
Qed.

Lemma child_check_scan_every_child (children : list Node) :
  child_check_fails (scan_every_child children [] 0)
  = Done (child_verdict (List.filter significant children)).
Proof.
  rewrite scan_every_child_counted.
  destruct (List.filter significant children) as [|a [|b l]]; reflexivity.
Qed.

End DetectorFacts.

Section DetectorTheorems.

Context {Node : Type} `{gi : GumboInterface Node}.

(** The detector once the three tag searches have found one node each. *)
Lemma fixup_unique_nodes (fuel : nat) (image_node svg_node body_node : Node) :
  get_all_nodes_with_tag GUMBO_TAG_IMAGE = [image_node] ->
  get_all_nodes_with_tag GUMBO_TAG_SVG = [svg_node] ->
  get_all_nodes_with_tag GUMBO_TAG_BODY = [body_node] ->
  fixup_fullscreen_svg_images fuel
  = if child_verdict (List.filter significant (element_children body_node))
    then Done false
    else
      let* path_pieces := ancestor_path fuel image_node in
      if negb (String.eqb (join "," path_pieces) "body,div,svg,image")
         && negb (String.eqb (join "," path_pieces) "body,svg,image")
      then Done false
      else Done (svg_is_full_size svg_node).
Proof.
  intros Hi Hs Hb. unfold fixup_fullscreen_svg_images.
  rewrite Hi, Hs, Hb. simpl.
  rewrite child_check_scan_children. simpl.
  destruct (child_verdict _); [reflexivity|].
  destruct (ancestor_path fuel image_node); simpl; try reflexivity.
  destruct (_ && _); [reflexivity|].
  destruct (svg_is_full_size svg_node); reflexivity.
Qed.

(** An attribute reads as [100%] only if it is there with that value: the
    default for a missing one is the empty string. *)
Lemma value_100 (h : gmap string string) (key : string) :
  value h key EmptyString = "100%" <-> h !! key = Some "100%".
Proof.
  unfold value. destruct (h !! key) as [v|]; simpl.
  - split; [intros -> | intros H; injection H as ->]; reflexivity.
  - split; discriminate.
Qed.

Lemma svg_is_full_size_iff (svg_node : Node) :
  svg_is_full_size svg_node = true
  <-> value (get_attributes_of_node svg_node) "width" EmptyString = "100%"
      /\ value (get_attributes_of_node svg_node) "height" EmptyString = "100%".
Proof.
  unfold svg_is_full_size. rewrite andb_true_iff, !String.eqb_eq. reflexivity.
Qed.

(** A count other than 1 ends the detector at once. *)
Lemma fixup_wrong_counts (fuel : nat) :
  length (get_all_nodes_with_tag GUMBO_TAG_IMAGE) <> 1
  \/ length (get_all_nodes_with_tag GUMBO_TAG_SVG) <> 1
  \/ length (get_all_nodes_with_tag GUMBO_TAG_BODY) <> 1 ->
  fixup_fullscreen_svg_images fuel = Done false.
Proof.
  intros H. unfold fixup_fullscreen_svg_images.
  destruct (length (get_all_nodes_with_tag GUMBO_TAG_IMAGE) =? 1)%nat eqn:Ei;
    simpl; [|reflexivity].
  destruct (length (get_all_nodes_with_tag GUMBO_TAG_SVG) =? 1)%nat eqn:Es;
    simpl; [|reflexivity].
  destruct (length (get_all_nodes_with_tag GUMBO_TAG_BODY) =? 1)%nat eqn:Eb;
    simpl; [|reflexivity].
  apply Nat.eqb_eq in Ei, Es, Eb. lia.
Qed.

(** C2.  If the number of nodes tagged [image] is not 1, or the number of
    nodes tagged [svg] is not 1, or the number of nodes tagged [body] is not
    1, the detector returns false, whatever the fuel: the three counts are
    taken before anything else is looked at.  In particular a document
    without an image, or with two or more, is rejected. *)
Theorem wrong_counts_rejected (fuel : nat) :
  length (get_all_nodes_with_tag GUMBO_TAG_IMAGE) <> 1
  \/ length (get_all_nodes_with_tag GUMBO_TAG_SVG) <> 1
  \/ length (get_all_nodes_with_tag GUMBO_TAG_BODY) <> 1 ->
  fixup_fullscreen_svg_images fuel = Done false.
Proof.
  intros H. unfold fixup_fullscreen_svg_images.
  destruct (Nat.eqb_spec (length (get_all_nodes_with_tag GUMBO_TAG_IMAGE)) 1)
    as [Ei|Ei]; simpl; [|reflexivity].
  destruct (Nat.eqb_spec (length (get_all_nodes_with_tag GUMBO_TAG_SVG)) 1)
    as [Es|Es]; simpl; [|reflexivity].
  destruct (Nat.eqb_spec (length (get_all_nodes_with_tag GUMBO_TAG_BODY)) 1)
    as [Eb|Eb]; simpl; [|reflexivity].
  exfalso. destruct H as [H|[H|H]]; contradiction.
Qed.

(** The detector returns true once each of its tests has come out well: the
    tally of body's children, the walk to body and the two attributes. *)
Lemma fixup_guards_passed
    (fuel : nat) (image_node svg_node body_node child : Node)
    (path_pieces : list string) :
  get_all_nodes_with_tag GUMBO_TAG_IMAGE = [image_node] ->
  get_all_nodes_with_tag GUMBO_TAG_SVG = [svg_node] ->
  get_all_nodes_with_tag GUMBO_TAG_BODY = [body_node] ->
  List.filter significant (element_children body_node) = [child] ->
  get_tag_name child = "div" \/ get_tag_name child = "svg" ->
  ancestor_path fuel image_node = Done path_pieces ->
  join "," path_pieces = "body,div,svg,image"
  \/ join "," path_pieces = "body,svg,image" ->
  get_attributes_of_node svg_node !! "width" = Some "100%" ->
  get_attributes_of_node svg_node !! "height" = Some "100%" ->
  fixup_fullscreen_svg_images fuel = Done true.
Proof.
  intros Hi Hs Hb Hc Ht Hp Hj Hw Hh.
  assert (Hallowed : contains allowed_tags (get_tag_name child) = true).
  { apply contains_In. simpl. destruct Ht as [-> | ->]; auto. }
  rewrite (fixup_unique_nodes fuel _ _ _ Hi Hs Hb), Hc.
  unfold child_verdict. rewrite Hallowed, Hp. cbn [negb bind].
  assert (Hgate : negb (String.eqb (join "," path_pieces) "body,div,svg,image")
                  && negb (String.eqb (join "," path_pieces) "body,svg,image")
                  = false).
  { destruct Hj as [-> | ->]; reflexivity. }
  rewrite Hgate. f_equal.
  apply svg_is_full_size_iff. unfold value. rewrite Hw, Hh. split; reflexivity.
Qed.

(** C3.  With the counts and the check of body's children passed, the
    detector returns true only if the comma-joined path is exactly
    [body,div,svg,image] or [body,svg,image]; with any other path it returns
    false. *)
Theorem other_paths_rejected
    (fuel : nat) (image_node svg_node body_node : Node)
    (path_pieces : list string) :
  get_all_nodes_with_tag GUMBO_TAG_IMAGE = [image_node] ->
  get_all_nodes_with_tag GUMBO_TAG_SVG = [svg_node] ->
  get_all_nodes_with_tag GUMBO_TAG_BODY = [body_node] ->
  child_check_fails (scan_children (element_children body_node) [] 0)
    = Done false ->
  ancestor_path fuel image_node = Done path_pieces ->
  (fixup_fullscreen_svg_images fuel = Done true ->
   join "," path_pieces = "body,div,svg,image"
   \/ join "," path_pieces = "body,svg,image")
  /\ (join "," path_pieces <> "body,div,svg,image" ->
      join "," path_pieces <> "body,svg,image" ->
      fixup_fullscreen_svg_images fuel = Done false).
Proof.
  intros Hi Hs Hb Hc Hp.
  rewrite child_check_scan_children in Hc. injection Hc as Hc.
  rewrite (fixup_unique_nodes fuel _ _ _ Hi Hs Hb), Hc, Hp. simpl.
  destruct (String.eqb_spec (join "," path_pieces) "body,div,svg,image") as [E1|E1];
  destruct (String.eqb_spec (join "," path_pieces) "body,svg,image") as [E2|E2];
    simpl; split; intros; auto; try congruence.
Qed.

(** C6.  With all structural checks passed, the detector returns true if and
    only if the svg node has a [width] attribute and a [height] attribute
    and the value of each is exactly [100%]; otherwise it returns false, in
    particular when one of the two attributes is missing, which reads as the
    empty string. *)
Theorem dimensions_decide
    (fuel : nat) (image_node svg_node body_node : Node)
    (path_pieces : list string) :
  get_all_nodes_with_tag GUMBO_TAG_IMAGE = [image_node] ->
  get_all_nodes_with_tag GUMBO_TAG_SVG = [svg_node] ->
  get_all_nodes_with_tag GUMBO_TAG_BODY = [body_node] ->
  child_check_fails (scan_children (element_children body_node) [] 0)
    = Done false ->
  ancestor_path fuel image_node = Done path_pieces ->
  join "," path_pieces = "body,div,svg,image"
  \/ join "," path_pieces = "body,svg,image" ->
  (fixup_fullscreen_svg_images fuel = Done true
   <-> get_attributes_of_node svg_node !! "width" = Some "100%"
       /\ get_attributes_of_node svg_node !! "height" = Some "100%")
  /\ (fixup_fullscreen_svg_images fuel <> Done true ->
      fixup_fullscreen_svg_images fuel = Done false)
  /\ (get_attributes_of_node svg_node !! "width" = None ->
      fixup_fullscreen_svg_images fuel = Done false)
  /\ (get_attributes_of_node svg_node !! "height" = None ->
      fixup_fullscreen_svg_images fuel = Done false).
Proof.
  intros Hi Hs Hb Hc Hp Hj.
  rewrite child_check_scan_children in Hc. injection Hc as Hc.
  rewrite (fixup_unique_nodes fuel _ _ _ Hi Hs Hb), Hc, Hp. simpl.
  assert (Hgate : negb (String.eqb (join "," path_pieces) "body,div,svg,image")
                  && negb (String.eqb (join "," path_pieces) "body,svg,image")
                  = false).
  { destruct Hj as [-> | ->]; reflexivity. }
  rewrite Hgate. rewrite <- !value_100, <- svg_is_full_size_iff.
  repeat split.
  - congruence.
  - intros ->. reflexivity.
  - destruct (svg_is_full_size svg_node); congruence.
  - intros Hw. f_equal. unfold svg_is_full_size, value. rewrite Hw. reflexivity.
  - intros Hh. f_equal. unfold svg_is_full_size, value. rewrite Hh.
    simpl. apply andb_false_r.
Qed.

(** Every increment of the tally comes with one appended name. *)
Lemma scan_children_length (children : list Node) :
  forall (child_names : list string) (elcount : nat),
    length child_names = elcount ->
    length (fst (scan_children children child_names elcount))
    = snd (scan_children children child_names elcount).
Proof.
  induction children as [|child rest IH]; intros names n Hlen; simpl.
  - assumption.
  - destruct (node_type_eqb (node_type child) GUMBO_NODE_ELEMENT).
    + destruct (negb (ignore_tag child)).
      * destruct (1 <? S n)%nat.
        -- simpl. rewrite length_app. simpl. lia.
        -- apply IH. rewrite length_app. simpl. lia.
      * destruct (1 <? n)%nat; [assumption | now apply IH].
    + now apply IH.
Qed.

Lemma path_loop_in_range (fuel : nat) :
  forall (anode : option Node) (path_pieces : list string),
    path_loop fuel anode path_pieces <> OutOfRange.
Proof.
  induction fuel as [|fuel IH]; intros [a|] pieces; simpl; try discriminate.
  - destruct (is_body_element a); discriminate.
  - destruct (is_body_element a); [discriminate|].
    destruct (node_parent a); [apply IH | discriminate].
Qed.

(** C9.  [child_names.at(0)] is always in bounds.  After the scan the list of
    names is as long as the tally; so when the tally is 1, which is the only
    case in which [at(0)] is evaluated, the list has exactly one name.  The
    check of body's children and the detector as a whole never end in an
    out-of-range access. *)
Theorem child_names_access_in_bounds (children : list Node) (fuel : nat) :
  length (fst (scan_children children [] 0)) = snd (scan_children children [] 0)
  /\ (snd (scan_children children [] 0) = 1 ->
      exists name0, fst (scan_children children [] 0) = [name0]
                    /\ at_ (fst (scan_children children [] 0)) 0 = Done name0)
  /\ child_check_fails (scan_children children [] 0) <> OutOfRange
  /\ fixup_fullscreen_svg_images fuel <> OutOfRange.
Proof.
  pose proof (scan_children_length children [] 0 eq_refl) as Hlen.
  split; [assumption|]. split; [|split].
  - intros H1. rewrite H1 in Hlen.
    destruct (length_1_inv _ Hlen) as [name0 Hn]. exists name0.
    rewrite Hn. split; reflexivity.
  - rewrite child_check_scan_children. discriminate.
  - unfold fixup_fullscreen_svg_images.
    destruct (length (get_all_nodes_with_tag GUMBO_TAG_IMAGE) =? 1)%nat eqn:Ei;
      simpl; [|discriminate].
    destruct (length (get_all_nodes_with_tag GUMBO_TAG_SVG) =? 1)%nat eqn:Es;
      simpl; [|discriminate].
    destruct (length (get_all_nodes_with_tag GUMBO_TAG_BODY) =? 1)%nat eqn:Eb;
      simpl; [|discriminate].
    apply Nat.eqb_eq in Ei, Es, Eb.
    destruct (length_1_inv _ Ei) as [i ->].
    destruct (length_1_inv _ Es) as [v ->].
    destruct (length_1_inv _ Eb) as [b ->].
    simpl. rewrite child_check_scan_children. simpl.
    destruct (child_verdict _); [discriminate|].
    unfold ancestor_path.
    pose proof (path_loop_in_range fuel (Some i) [get_tag_name i]) as Hr.
    destruct (path_loop fuel (Some i) [get_tag_name i]); simpl;
      try discriminate; try congruence.
    destruct (_ && _); [discriminate|].
    destruct (svg_is_full_size v); discriminate.
Qed.

(** The walk along a chain of ancestors that ends in body: the names of the
    ancestors are put in front one by one, those that are themselves
    [script] or [style] left out. *)
Lemma path_loop_climb (n : Node) (l : list Node) :
  climb n l ->
  forall (fuel : nat) (path_pieces : list string),
    length l <= fuel ->
    path_loop fuel (Some n) path_pieces
    = Done (rev (List.filter keeps_name (map get_tag_name l)) ++ path_pieces).
Proof.
  induction 1 as [n Hb | n p l Hb Hp Hc IH]; intros fuel pieces Hf.
  - destruct fuel; simpl; rewrite Hb; reflexivity.
  - destruct fuel as [|fuel]; simpl in Hf; [lia|].
    simpl. rewrite Hb, Hp.
    rewrite IH by lia.
    destruct (keeps_name (get_tag_name p)); simpl.
    + rewrite <- app_assoc. reflexivity.
    + reflexivity.
Qed.

(** A body element [k] links above [n] gives such a chain, not longer than
    [k]. *)
Lemma ancestor_climb (k : nat) :
  forall n b : Node,
    ancestor_at k n = Some b ->
    is_body_element b = true ->
    exists l, climb n l /\ length l <= k.
Proof.
  induction k as [|k IH]; intros n b Ha Hb; simpl in Ha.
  - injection Ha as ->. exists []. split; [now constructor | simpl; lia].
  - destruct (is_body_element n) eqn:Hn.
    + exists []. split; [now constructor | simpl; lia].
    + destruct (node_parent n) as [p|] eqn:Hp; [|discriminate].
      destruct (IH p b Ha Hb) as (l & Hc & Hl).
      exists (p :: l). split; [now constructor | simpl; lia].
Qed.

(** C10.  Termination of the walk.  If, whenever the image node and the body
    node are unique, the body node is reached from the image node by parent
    links, then from some amount of fuel on the walk finishes with a path and
    the detector returns a boolean.  No more is needed of the tree than that
    tag searches return elements carrying the tag; a cycle elsewhere in the
    parent links cannot be met, since the walk follows one link per step and
    stops at body. *)
Theorem detector_terminates :
  tags_sound ->
  (forall image_node body_node : Node,
     get_all_nodes_with_tag GUMBO_TAG_IMAGE = [image_node] ->
     get_all_nodes_with_tag GUMBO_TAG_BODY = [body_node] ->
     exists k, ancestor_at k image_node = Some body_node) ->
  exists fuel0 : nat,
    forall fuel : nat, fuel0 <= fuel ->
      (exists b : bool, fixup_fullscreen_svg_images fuel = Done b)
      /\ (forall image_node : Node,
            get_all_nodes_with_tag GUMBO_TAG_IMAGE = [image_node] ->
            length (get_all_nodes_with_tag GUMBO_TAG_BODY) = 1 ->
            exists path_pieces,
              ancestor_path fuel image_node = Done path_pieces).
Proof.
  intros Hsound Hup.
  destruct (Nat.eq_dec (length (get_all_nodes_with_tag GUMBO_TAG_IMAGE)) 1)
    as [Ei|Ei].
  2:{ exists 0. intros fuel _. split.
      - exists false. apply fixup_wrong_counts. auto.
      - intros i Hi. rewrite Hi in Ei. simpl in Ei. congruence. }
  destruct (Nat.eq_dec (length (get_all_nodes_with_tag GUMBO_TAG_BODY)) 1)
    as [Eb|Eb].
  2:{ exists 0. intros fuel _. split.
      - exists false. apply fixup_wrong_counts. auto.
      - intros i _ Hb. congruence. }
  destruct (length_1_inv _ Ei) as [i Hi].
  destruct (length_1_inv _ Eb) as [b Hb].
  destruct (Hup i b Hi Hb) as [k Hk].
  assert (Hbody : is_body_element b = true).
  { pose proof (Hsound GUMBO_TAG_BODY) as Hall. rewrite Hb in Hall.
    apply Forall_cons in Hall. destruct Hall as [[Ht Hg] _].
    unfold is_body_element. rewrite Ht, Hg. reflexivity. }
  destruct (ancestor_climb k i b Hk Hbody) as (l & Hc & Hl).
  exists k. intros fuel Hfuel.
  assert (Hpath : ancestor_path fuel i
                  = Done (rev (List.filter keeps_name (map get_tag_name l))
                          ++ [get_tag_name i])).
  { unfold ancestor_path. apply (path_loop_climb i l Hc). lia. }
  split.
  - destruct (Nat.eq_dec (length (get_all_nodes_with_tag GUMBO_TAG_SVG)) 1)
      as [Es|Es].
    2:{ exists false. apply fixup_wrong_counts. auto. }
    destruct (length_1_inv _ Es) as [v Hv].
    rewrite (fixup_unique_nodes fuel _ _ _ Hi Hv Hb), Hpath. simpl.
    destruct (child_verdict _); [eauto|].
    destruct (_ && _); eauto.
  - intros i' Hi' _. rewrite Hi in Hi'. injection Hi' as <-. eauto.
Qed.

(** C4, as the code has it.  Along the chain of ancestors that leads from the
    image node to the first body element, an ancestor is left out of the path
    exactly when it is itself named [script] or [style]; the names of all
    other ancestors appear in order, body first, and the name of the image
    node closes the path. *)
Theorem path_skips_script_and_style
    (fuel : nat) (image_node : Node) (ancestors : list Node) :
  climb image_node ancestors ->
  length ancestors <= fuel ->
  ancestor_path fuel image_node
  = Done (rev (List.filter
                 (fun name => negb (String.eqb name "script")
                              && negb (String.eqb name "style"))
                 (map get_tag_name ancestors))
          ++ [get_tag_name image_node]).
Proof.
  intros Hc Hf. unfold ancestor_path.
  rewrite (path_loop_climb image_node ancestors Hc fuel _ Hf). reflexivity.
Qed.

Lemma is_body_element_iff (n : Node) :
  is_body_element n = true
  <-> node_type n = GUMBO_NODE_ELEMENT /\ element_tag n = GUMBO_TAG_BODY.
Proof.
  unfold is_body_element.
  rewrite andb_true_iff, node_type_eqb_eq, tag_eqb_eq. reflexivity.
Qed.

Lemma ancestors_to_body_climb (n : Node) (l : list Node) :
  ancestors_to_body n l -> climb n l.
Proof.
  induction 1 as [n Ht Hg | n p l Hn Hp _ IH].
  - apply climb_body. apply is_body_element_iff. split; assumption.
  - apply climb_parent; [|assumption|assumption].
    destruct (is_body_element n) eqn:E; [|reflexivity].
    apply is_body_element_iff in E. contradiction.
Qed.

(** C1.  One image node, one svg node, one body node; of body's children
    exactly one is significant (an element that is neither a script, nor a
    style, nor a heading without text) and it is named div or svg; the names
    of the image node's ancestors up to body, script and style left out,
    read [body,div,svg,image] or [body,svg,image] with the image's own name
    at the end; the svg node has [width] and [height] both equal to [100%]:
    then the detector returns true. *)
Theorem full_page_svg_detected
    (fuel : nat) (image_node svg_node body_node child : Node)
    (front back ancestors : list Node) :
  get_all_nodes_with_tag GUMBO_TAG_IMAGE = [image_node] ->
  get_all_nodes_with_tag GUMBO_TAG_SVG = [svg_node] ->
  get_all_nodes_with_tag GUMBO_TAG_BODY = [body_node] ->
  element_children body_node = front ++ child :: back ->
  is_significant child ->
  (forall other : Node, In other (front ++ back) -> ~ is_significant other) ->
  get_tag_name child = "div" \/ get_tag_name child = "svg" ->
  ancestors_to_body image_node ancestors ->
  length ancestors <= fuel ->
  join "," (named_path image_node ancestors) = "body,div,svg,image"
  \/ join "," (named_path image_node ancestors) = "body,svg,image" ->
  get_attributes_of_node svg_node !! "width" = Some "100%" ->
  get_attributes_of_node svg_node !! "height" = Some "100%" ->
  fixup_fullscreen_svg_images fuel = Done true.
Proof.
  intros Hi Hs Hb Hch Hsig Hrest Ht Hanc Hfuel Hj Hw Hh.
  assert (Hnone : forall l : list Node,
            (forall other, In other l -> ~ is_significant other) ->
            List.filter significant l = []).
  { induction l as [|c l IH]; intros Hl; [reflexivity|].
    simpl. destruct (significant c) eqn:E.
    - apply significant_iff in E. exfalso. apply (Hl c); [now left | exact E].
    - apply IH. intros other Hin. apply Hl. now right. }
  apply (fixup_guards_passed fuel image_node svg_node body_node child
           (named_path image_node ancestors)); try assumption.
  - rewrite Hch, List.filter_app. simpl.
    apply significant_iff in Hsig. rewrite Hsig.
    rewrite !Hnone; [reflexivity | |];
      intros other Hin; apply Hrest; apply in_or_app; auto.
  - unfold ancestor_path, named_path.
    apply (path_loop_climb image_node ancestors
             (ancestors_to_body_climb _ _ Hanc) fuel _ Hfuel).
Qed.

(** C8.  The scan with the early exit decides as the scan of every child
    does.  When at least two counted children occur among the first children
    of body, the detector returns false and what follows them is not looked
    at: the scan ends in the same state as on those first children alone. *)
Theorem early_exit_same_decision
    (fuel : nat) (body_node : Node) (first rest : list Node) :
  get_all_nodes_with_tag GUMBO_TAG_BODY = [body_node] ->
  element_children body_node = first ++ rest ->
  1 < length (List.filter significant first) ->
  fixup_fullscreen_svg_images fuel = Done false
  /\ scan_children (first ++ rest) [] 0 = scan_children first [] 0
  /\ (forall children : list Node,
        child_check_fails (scan_children children [] 0)
        = child_check_fails (scan_every_child children [] 0)).
Proof.
  intros Hb Hch Hlen.
  assert (Htake : take 2 (List.filter significant (first ++ rest))
                  = take 2 (List.filter significant first)).
  { rewrite List.filter_app. apply take_app_le. lia. }
  split; [|split].
  - destruct (Nat.eq_dec (length (get_all_nodes_with_tag GUMBO_TAG_IMAGE)) 1)
      as [Ei|Ei]; [|apply fixup_wrong_counts; auto].
    destruct (Nat.eq_dec (length (get_all_nodes_with_tag GUMBO_TAG_SVG)) 1)
      as [Es|Es]; [|apply fixup_wrong_counts; auto].
    destruct (length_1_inv _ Ei) as [i Hi].
    destruct (length_1_inv _ Es) as [v Hv].
    rewrite (fixup_unique_nodes fuel _ _ _ Hi Hv Hb), Hch.
    rewrite List.filter_app.
    destruct (List.filter significant first) as [|c1 [|c2 l]];
      simpl in Hlen; try lia.
    reflexivity.
  - rewrite !scan_children_counted by lia. simpl. rewrite Htake. reflexivity.
  - intros children.
    rewrite child_check_scan_children, child_check_scan_every_child.
    reflexivity.
Qed.


End DetectorTheorems.

(** ** The rewrite of the markup *)

Lemma string_app_cons (x : ascii) (a b : string) :
  String x a +:+ b = String x (a +:+ b).
Proof. reflexivity. Qed.

Lemma string_app_nil (b : string) : EmptyString +:+ b = b.
Proof. reflexivity. Qed.

Lemma string_app_assoc (a b c : string) : (a +:+ b) +:+ c = a +:+ (b +:+ c).
Proof.
  induction a as [|x a IH]; [reflexivity|].
  rewrite !string_app_cons. f_equal. exact IH.
Qed.

Lemma string_length_app (a b : string) :
  String.length (a +:+ b) = String.length a + String.length b.
Proof.
  induction a as [|x a IH]; [reflexivity|].
  rewrite string_app_cons. simpl. f_equal. exact IH.
Qed.

Lemma left_app (a b : string) : left (String.length a) (a +:+ b) = a.
Proof.
  induction a as [|x a IH].
  - rewrite string_app_nil. destruct b; reflexivity.
  - rewrite string_app_cons. simpl. f_equal. exact IH.
Qed.

Lemma mid_app (a b : string) : mid (String.length a) (a +:+ b) = b.
Proof.
  induction a as [|x a IH].
  - rewrite string_app_nil. destruct b; reflexivity.
  - rewrite string_app_cons. simpl. exact IH.
Qed.

Lemma mid_0 (s : string) : mid 0 s = s.
Proof. destruct s; reflexivity. Qed.

(** Exchanging the middle of a string. *)
Lemma replace_middle (pre g post new : string) :
  replace (pre +:+ g +:+ post) (String.length pre) (String.length g) new
  = pre +:+ new +:+ post.
Proof.
  unfold replace.
  assert (Hlt : (String.length (pre +:+ g +:+ post) <? String.length pre)%nat
                = false).
  { apply Nat.ltb_ge. rewrite string_length_app. lia. }
  rewrite Hlt, left_app. f_equal. f_equal.
  rewrite <- string_length_app, <- string_app_assoc. apply mid_app.
Qed.

Lemma strip_app (form s s' : string) :
  strip form s = Some s' <-> s = form +:+ s'.
Proof.
  revert s. induction form as [|a form IH]; intros s; simpl.
  - rewrite string_app_nil. split; [intros H; now injection H | now intros ->].
  - destruct s as [|b s]; [split; discriminate|].
    rewrite string_app_cons.
    destruct (Ascii.eqb_spec a b) as [->|Hab].
    + rewrite IH. split; [now intros -> | intros H; now injection H].
    + split; [discriminate | intros H; injection H as Hb _; congruence].
Qed.

Lemma match_here_no_forms (R : Type) (p : list atom)
    (s : string) (pos : nat) (k : string -> nat -> option R) :
  match_here (Forms [] :: p) s pos k = None.
Proof. reflexivity. Qed.

Lemma match_here_forms (R : Type) (form : string) (forms : list string)
    (p : list atom) (s : string) (pos : nat) (k : string -> nat -> option R) :
  match_here (Forms (form :: forms) :: p) s pos k
  = match strip form s with
    | Some s' =>
        match match_here p s' (pos + String.length form) k with
        | Some r => Some r
        | None => match_here (Forms forms :: p) s pos k
        end
    | None => match_here (Forms forms :: p) s pos k
    end.
Proof. reflexivity. Qed.

(** What the matcher reports it has found. *)
Lemma match_here_sound {R : Type} (p : list atom) :
  forall (s : string) (pos : nat) (k : string -> nat -> option R) (r : R),
    match_here p s pos k = Some r ->
    exists m s' : string,
      s = m +:+ s' /\ accepts p m /\ k s' (pos + String.length m) = Some r.
Proof.
  induction p as [|[c|c|forms] p IH].
  - intros s pos k r H. simpl in H. exists EmptyString, s.
    simpl. rewrite Nat.add_0_r. repeat split; [constructor | assumption].
  - intros [|a s] pos k r H; simpl in H; [discriminate|].
    destruct (c a) eqn:Hc; [|discriminate].
    destruct (IH _ _ _ _ H) as (m & s' & -> & Hacc & Hk).
    exists (String a m), s'. simpl. repeat split.
    + now constructor.
    + rewrite <- Hk. f_equal. lia.
  - assert (Hstop : forall s pos k (r : R),
              match_here p s pos k = Some r ->
              exists m s' : string,
                s = m +:+ s' /\ accepts (Many c :: p) m
                /\ k s' (pos + String.length m) = Some r).
    { intros s pos k r H.
      destruct (IH _ _ _ _ H) as (m & s' & -> & Hacc & Hk).
      exists m, s'. repeat split; [now constructor | assumption]. }
    intros s. induction s as [|a s IHs]; intros pos k r H.
    + apply Hstop. exact H.
    + simpl in H. destruct (c a) eqn:Hc; [|now apply Hstop].
      match type of H with
      | match ?inner with _ => _ end = _ => destruct inner as [r0|] eqn:Hm
      end; [|now apply Hstop].
      injection H as ->.
      destruct (IHs (S pos) k r Hm) as (m & s' & -> & Hacc & Hk).
      exists (String a m), s'. simpl. repeat split.
      * now constructor.
      * rewrite <- Hk. f_equal. lia.
  - intros s pos k r.
    assert (Htry : forall forms' : list string,
              incl forms' forms ->
              match_here (Forms forms' :: p) s pos k = Some r ->
              exists m s' : string,
                s = m +:+ s' /\ accepts (Forms forms :: p) m
                /\ k s' (pos + String.length m) = Some r).
    { induction forms' as [|form forms' IHf]; intros Hincl H.
      - rewrite match_here_no_forms in H. discriminate H.
      - rewrite match_here_forms in H.
        assert (Hrest : incl forms' forms)
          by (intros f Hf; apply Hincl; now right).
        destruct (strip form s) as [s0|] eqn:Hs; [|now apply IHf].
        destruct (match_here p s0 (pos + String.length form) k) as [r0|] eqn:Hm;
          [|now apply IHf].
        injection H as ->. apply strip_app in Hs. subst s.
        destruct (IH _ _ _ _ Hm) as (m & s' & -> & Hacc & Hk).
        exists (form +:+ m), s'. split; [symmetry; apply string_app_assoc|].
        split.
        + apply accepts_forms; [apply Hincl; now left | exact Hacc].
        + rewrite string_length_app, Nat.add_assoc. exact Hk. }
    apply Htry. apply incl_refl.
Qed.

Lemma accepts_literal (g : string) :
  forall m : string, accepts (literal g) m -> m = g.
Proof.
  induction g as [|x g IH]; intros m H; simpl in H.
  - inversion H. reflexivity.
  - inversion H as [|c p a m' Hc Hrest| | |]; subst.
    unfold is_char in Hc. apply Ascii.eqb_eq in Hc. subst.
    f_equal. now apply IH.
Qed.

Lemma match_at_sound (re : regex) (s : string) (pos bp n : nat) :
  match_at re s pos = Some (bp, n) ->
  exists m1 g m3 post : string,
    s = m1 +:+ g +:+ m3 +:+ post
    /\ accepts (before re) m1 /\ accepts (group re) g /\ accepts (after re) m3
    /\ bp = pos + String.length m1 /\ n = String.length g.
Proof.
  unfold match_at. intros H.
  destruct (match_here_sound _ _ _ _ _ H) as (m1 & s1 & -> & H1 & K1).
  destruct (match_here_sound _ _ _ _ _ K1) as (g & s2 & -> & H2 & K2).
  destruct (match_here_sound _ _ _ _ _ K2) as (m3 & post & -> & H3 & K3).
  injection K3 as <- <-.
  exists m1, g, m3, post. repeat split; try assumption. lia.
Qed.

(** The search stops at the first offset at which the pattern matches. *)
Lemma search_leftmost (re : regex) (s : string) :
  forall pos bp n : nat,
    search re s pos = Some (bp, n) ->
    exists pre rest : string,
      s = pre +:+ rest
      /\ match_at re rest (pos + String.length pre) = Some (bp, n)
      /\ forall k, k < String.length pre ->
           match_at re (mid k s) (pos + k) = None.
Proof.
  induction s as [|a s IH]; intros pos bp n H; simpl in H.
  - destruct (match_at re EmptyString pos) as [r|] eqn:Hm; [|discriminate].
    injection H as ->. exists EmptyString, EmptyString. simpl.
    rewrite Nat.add_0_r. repeat split; [assumption | intros; lia].
  - destruct (match_at re (String a s) pos) as [r|] eqn:Hm.
    + injection H as ->. exists EmptyString, (String a s). simpl.
      rewrite Nat.add_0_r. repeat split; [assumption | intros; lia].
    + destruct (IH _ _ _ H) as (pre & rest & -> & Hat & Hleft).
      exists (String a pre), rest. simpl. repeat split.
      * rewrite <- Hat. f_equal. lia.
      * intros [|k] Hk.
        -- rewrite Nat.add_0_r. exact Hm.
        -- simpl. replace (pos + S k) with (S pos + k) by lia.
           apply Hleft. lia.
Qed.

(** One block of the rewrite exchanges nothing but the captured [100%]. *)
Lemma substitute_rewrites (attr new text : string) :
  rewrites (svg_attr_regex attr) new text
           (substitute (svg_attr_regex attr) new text).
Proof.
  unfold rewrites, substitute.
  destruct (regex_match (svg_attr_regex attr) text) as [[bp n]|] eqn:Hm;
    [right | left; split; reflexivity].
  unfold regex_match in Hm.
  destruct (search_leftmost _ _ _ _ _ Hm) as (pre & rest & -> & Hat & Hleft).
  destruct (match_at_sound _ _ _ _ _ Hat)
    as (m1 & g & m3 & post & -> & H1 & H2 & H3 & -> & ->).
  apply accepts_literal in H2. subst g.
  unfold exchanges. exists pre, m1, m3, post.
  split; [reflexivity|]. split; [|split; [exact H1|split; [exact H3|split]]].
  - change (0 + String.length pre + String.length m1)
      with (String.length pre + String.length m1).
    rewrite <- (string_app_assoc pre m1), <- string_length_app.
    rewrite (replace_middle (pre +:+ m1) "100%" (m3 +:+ post) new).
    apply string_app_assoc.
  - unfold regex_match. exact Hm.
  - intros k Hk. exact (Hleft k Hk).
Qed.

(** C7, as the code has it.  When the detector returns false the markup is
    left as it is.  When it returns true the two patterns are tried one after
    the other, the second on the outcome of the first; each block either
    finds no match and changes nothing, or exchanges the captured [100%] of
    the leftmost match of its pattern ([100vh] for height, [100vw] for
    width) and leaves every other character in place. *)
Theorem svg_rewrite_frame
    (parse : string -> ParsedDocument) (fuel : nat) (text : string)
    (detected : bool) :
  fixup_text parse fuel text = Done detected ->
  exists out : string,
    UpdatePage_svg_fixup parse fuel text = Done out
    /\ (detected = false -> out = text)
    /\ (detected = true ->
        exists text1 : string,
          rewrites svg_height "100vh" text text1
          /\ rewrites svg_width "100vw" text1 out).
Proof.
  intros Hd. unfold UpdatePage_svg_fixup. rewrite Hd. simpl.
  destruct detected.
  - eexists. split; [reflexivity|]. split; [discriminate|]. intros _.
    exists (substitute svg_height "100vh" text).
    split; apply substitute_rewrites.
  - exists text. split; [reflexivity|]. split; [reflexivity | discriminate].
Qed.


(** ** The reference implementation is sound for tag searches *)

(** Induction on a [dom] with the hypothesis for every child. *)
Lemma dom_induction (P : dom -> Prop) :
  (forall name attrs kids, Forall P kids -> P (Element name attrs kids)) ->
  (forall ty s, P (Leaf ty s)) ->
  forall t, P t.
Proof.
  intros Hel Hleaf.
  fix IH 1. intros [name attrs kids | ty s]; [|apply Hleaf].
  apply Hel. induction kids as [|k ks IHks]; constructor; [apply IH | exact IHks].
Qed.

(** Every address a search returns lies below the starting address and
    leads to an element with the tag. *)
Lemma nodes_with_tag_sound (tag : GumboTag) (t : dom) :
  forall (here p : list nat),
    In p (nodes_with_tag tag t here) ->
    exists (suffix : list nat) (name : string) attrs kids,
      p = here ++ suffix
      /\ subtree t suffix = Some (Element name attrs kids)
      /\ tag_of_name name = tag.
Proof.
  induction t as [name attrs kids IHkids | ty s] using dom_induction;
    intros here p Hin; simpl in Hin; [|contradiction].
  apply in_app_or in Hin. destruct Hin as [Hin | Hin].
  - destruct (tag_eqb (tag_of_name name) tag) eqn:Ht; [|contradiction].
    destruct Hin as [<- | []]. apply tag_eqb_eq in Ht.
    exists [], name, attrs, kids. rewrite app_nil_r. auto.
  - assert (Hgo : forall (ks : list dom) (i : nat),
              Forall
                (fun k => forall here p,
                   In p (nodes_with_tag tag k here) ->
                   exists suffix name attrs kids,
                     p = here ++ suffix
                     /\ subtree k suffix = Some (Element name attrs kids)
                     /\ tag_of_name name = tag) ks ->
              In p ((fix go (ks : list dom) (i : nat) : list (list nat) :=
                       match ks with
                       | [] => []
                       | k :: ks' =>
                           nodes_with_tag tag k (here ++ [i]) ++ go ks' (S i)
                       end) ks i) ->
              exists (j : nat) (k : dom) suffix name' attrs' kids',
                ks !! j = Some k
                /\ p = (here ++ [i + j]) ++ suffix
                /\ subtree k suffix = Some (Element name' attrs' kids')
                /\ tag_of_name name' = tag).
    { induction ks as [|k ks IHks]; intros i Hall Hp; [contradiction|].
      apply Forall_cons in Hall. destruct Hall as [Hk Hks].
      apply in_app_or in Hp. destruct Hp as [Hp | Hp].
      - destruct (Hk _ _ Hp) as (suffix & n' & a' & k' & -> & Hs & Ht).
        exists 0, k, suffix, n', a', k'. rewrite Nat.add_0_r. auto.
      - destruct (IHks (S i) Hks Hp)
          as (j & k0 & suffix & n' & a' & k' & Hj & -> & Hs & Ht).
        exists (S j), k0, suffix, n', a', k'.
        replace (i + S j) with (S i + j) by lia. auto. }
    destruct (Hgo kids 0 IHkids Hin)
      as (j & k & suffix & n' & a' & k' & Hj & -> & Hs & Ht).
    exists (j :: suffix), n', a', k'. simpl. rewrite Hj.
    rewrite <- app_assoc. auto.
Qed.

Lemma dom_tags_sound (root : dom) : @tags_sound _ (dom_interface root).
Proof.
  intros tag. apply List.Forall_forall. intros p Hin.
  destruct (nodes_with_tag_sound tag root [] p Hin)
    as (suffix & name & attrs & kids & -> & Hs & Ht).
  simpl. rewrite Hs. auto.
Qed.

(** ** The examples of the description, run *)




Example doc_div_svg_detected : detect_dom 5 doc_div_svg = Done true.
Proof. vm_compute. reflexivity. Qed.

Example doc_svg_detected : detect_dom 5 doc_svg = Done true.
Proof. vm_compute. reflexivity. Qed.

Example doc_nested_divs_rejected : detect_dom 5 doc_nested_divs = Done false.
Proof. vm_compute. reflexivity. Qed.

Example doc_height_99_rejected : detect_dom 5 doc_height_99 = Done false.
Proof. vm_compute. reflexivity. Qed.

Example doc_no_height_rejected : detect_dom 5 doc_no_height = Done false.
Proof. vm_compute. reflexivity. Qed.

Example doc_empty_heading_detected : detect_dom 5 doc_empty_heading = Done true.
Proof. vm_compute; reflexivity. Qed.

Example doc_blank_heading_detected : detect_dom 5 doc_blank_heading = Done true.
Proof. vm_compute; reflexivity. Qed.

Example doc_titled_rejected : detect_dom 5 doc_titled = Done false.
Proof. vm_compute; reflexivity. Qed.

Example doc_script_then_div_detected :
  detect_dom 5 doc_script_then_div = Done true.
Proof. vm_compute. reflexivity. Qed.

Example doc_style_wrapper_detected : detect_dom 5 doc_style_wrapper = Done true.
Proof. vm_compute. reflexivity. Qed.

Example text_quoted_rewritten :
  UpdatePage_svg_fixup (fun _ => parsed doc_div_svg) 5 text_quoted
  = Done "<body><div><svg width='100vw' height='100vh'><image/></svg></div></body>".
Proof. vm_compute. reflexivity. Qed.

(** The letter [s] of the pattern also stands for the long s: the tag in the
    comment is the first that the two patterns match, and its tokens are the
    ones exchanged; the svg element of the tree keeps its own. *)
Example long_s_tag_rewritten :
  detect_dom 5 doc_long_s_comment = Done true
  /\ UpdatePage_svg_fixup (fun _ => parsed doc_long_s_comment) 5
       text_long_s_comment
     = Done ("<body><!-- <" +:+ long_s +:+ "vg width='100vw' height='100vh'> "
             +:+ "--><div><svg width='100%' height='100%'><image/></svg>"
             +:+ "</div></body>").
Proof. repeat split; vm_compute; reflexivity. Qed.

(** With too little fuel the walk is cut short; on a parent link that leads
    back to the node itself no fuel is enough. *)
Example doc_div_svg_needs_fuel : detect_dom 2 doc_div_svg = OutOfFuel.
Proof. vm_compute. reflexivity. Qed.

Lemma looping_walk_never_ends (fuel : nat) :
  @ancestor_path _ looping_interface fuel tt = OutOfFuel.
Proof.
  unfold ancestor_path. generalize [@get_tag_name _ looping_interface tt].
  induction fuel as [|fuel IH]; intros pieces; [reflexivity|].
  simpl. apply IH.
Qed.

(** ** Instances *)

Lemma wrong_counts_rejected_witness :
  length (nodes_in doc_two_images GUMBO_TAG_IMAGE) = 2
  /\ detect_dom 5 doc_two_images = Done false.
Proof.
  split; [reflexivity|].
  apply (@wrong_counts_rejected _ (dom_interface doc_two_images) 5).
  left. vm_compute. discriminate.
Defined.

Lemma full_page_svg_detected_witness :
  name_in doc_script_then_div [1; 0] = "script"
  /\ detect_dom 5 doc_script_then_div = Done true.
Proof.
  split; [vm_compute; reflexivity|].
  apply (@full_page_svg_detected _ (dom_interface doc_script_then_div) 5
           [1; 1; 0; 0] [1; 1; 0] [1] [1; 1] [[1; 0]] []
           [[1; 1; 0]; [1; 1]; [1]]).
  - vm_compute; reflexivity.
  - vm_compute; reflexivity.
  - vm_compute; reflexivity.
  - vm_compute; reflexivity.
  - split; [vm_compute; reflexivity|].
    split; [vm_compute; discriminate|].
    split; [vm_compute; discriminate|].
    intros [Hin _]. vm_compute in Hin. intuition discriminate.
  - intros other [<- | []] (_ & Hscript & _). apply Hscript.
    vm_compute; reflexivity.
  - left. vm_compute; reflexivity.
  - repeat (apply below_body;
            [intros [_ Htag]; vm_compute in Htag; discriminate Htag
            | reflexivity |]).
    apply at_body; vm_compute; reflexivity.
  - simpl. lia.
  - left. vm_compute; reflexivity.
  - vm_compute; reflexivity.
  - vm_compute; reflexivity.
Defined.

Lemma other_paths_rejected_witness :
  path_in doc_nested_divs 5 [1; 0; 0; 0; 0]
  = Done ["body"; "div"; "div"; "svg"; "image"]
  /\ detect_dom 5 doc_nested_divs = Done false.
Proof.
  split; [vm_compute; reflexivity|].
  apply (@other_paths_rejected _ (dom_interface doc_nested_divs) 5
           [1; 0; 0; 0; 0] [1; 0; 0; 0] [1]
           ["body"; "div"; "div"; "svg"; "image"]).
  - vm_compute; reflexivity.
  - vm_compute; reflexivity.
  - vm_compute; reflexivity.
  - vm_compute; reflexivity.
  - vm_compute; reflexivity.
  - vm_compute; discriminate.
  - vm_compute; discriminate.
Defined.

Lemma dimensions_decide_witness :
  detect_dom 5 doc_div_svg = Done true
  /\ detect_dom 5 doc_height_99 = Done false
  /\ detect_dom 5 doc_no_height = Done false.
Proof.
  split; [|split].
  - apply (@dimensions_decide _ (dom_interface doc_div_svg) 5
             [1; 0; 0; 0] [1; 0; 0] [1] ["body"; "div"; "svg"; "image"]);
      try (left; vm_compute; reflexivity);
      try (split; vm_compute; reflexivity);
      vm_compute; reflexivity.
  - destruct (@dimensions_decide _ (dom_interface doc_height_99) 5
                [1; 0; 0; 0] [1; 0; 0] [1] ["body"; "div"; "svg"; "image"])
      as (Hiff & Hfalse & _);
      [vm_compute; reflexivity | vm_compute; reflexivity
      | vm_compute; reflexivity | vm_compute; reflexivity
      | vm_compute; reflexivity | left; vm_compute; reflexivity |].
    apply Hfalse. intros Htrue. apply Hiff in Htrue.
    destruct Htrue as [_ Hheight]. vm_compute in Hheight. discriminate Hheight.
  - apply (@dimensions_decide _ (dom_interface doc_no_height) 5
             [1; 0; 0; 0] [1; 0; 0] [1] ["body"; "div"; "svg"; "image"]);
      try (left; vm_compute; reflexivity);
      vm_compute; reflexivity.
Defined.

Lemma path_skips_script_and_style_witness :
  path_in doc_style_wrapper 5 [1; 0; 0; 0; 0]
  = Done ["body"; "div"; "svg"; "image"].
Proof.
  apply (@path_skips_script_and_style _ (dom_interface doc_style_wrapper) 5
           [1; 0; 0; 0; 0] [[1; 0; 0; 0]; [1; 0; 0]; [1; 0]; [1]]).
  - repeat (apply climb_parent; [reflexivity | reflexivity |]).
    apply climb_body. reflexivity.
  - simpl. lia.
Defined.

(** C4, as the description has it, fails on [body > div > style > svg >
    image].  The ancestors of the image are svg, style, div and body.  The
    description leaves out svg, whose parent is the style element, and keeps
    style; the code leaves out style and keeps svg, and so accepts the
    document. *)
Lemma style_wrapper_path_differs :
  climb_in doc_style_wrapper [1; 0; 0; 0; 0]
           [[1; 0; 0; 0]; [1; 0; 0]; [1; 0]; [1]]
  /\ map (name_in doc_style_wrapper) [[1; 0; 0; 0]; [1; 0; 0]; [1; 0]; [1]]
     = ["svg"; "style"; "div"; "body"]
  /\ described_path_in doc_style_wrapper [1; 0; 0; 0; 0]
                       [[1; 0; 0; 0]; [1; 0; 0]; [1; 0]; [1]]
     = ["body"; "div"; "style"; "image"]
  /\ path_in doc_style_wrapper 5 [1; 0; 0; 0; 0]
     = Done ["body"; "div"; "svg"; "image"]
  /\ detect_dom 5 doc_style_wrapper = Done true
  /\ ~ (forall (Node : Type) (gi : GumboInterface Node) (fuel : nat)
               (image_node : Node) (ancestors : list Node),
          climb image_node ancestors ->
          length ancestors <= fuel ->
          ancestor_path fuel image_node
          = Done (described_path image_node ancestors)).
Proof.
  assert (Hclimb : climb_in doc_style_wrapper [1; 0; 0; 0; 0]
                     [[1; 0; 0; 0]; [1; 0; 0]; [1; 0]; [1]]).
  { unfold climb_in.
    repeat (apply climb_parent; [reflexivity | reflexivity |]).
    apply climb_body. reflexivity. }
  split; [exact Hclimb|].
  split; [vm_compute; reflexivity|].
  split; [vm_compute; reflexivity|].
  split; [vm_compute; reflexivity|].
  split; [vm_compute; reflexivity|].
  intros Hall.
  specialize (Hall _ (dom_interface doc_style_wrapper) 5 _ _ Hclimb).
  vm_compute in Hall. specialize (Hall (le_S 4 4 (le_n 4))). discriminate Hall.
Qed.


Lemma svg_rewrite_frame_witness :
  fixup_text (fun _ => parsed doc_div_svg) 5 text_quoted = Done true
  /\ exists out text1 : string,
       UpdatePage_svg_fixup (fun _ => parsed doc_div_svg) 5 text_quoted
       = Done out
       /\ rewrites svg_height "100vh" text_quoted text1
       /\ rewrites svg_width "100vw" text1 out.
Proof.
  split; [vm_compute; reflexivity|].
  destruct (svg_rewrite_frame (fun _ => parsed doc_div_svg) 5 text_quoted true)
    as (out & Hout & _ & Htrue); [vm_compute; reflexivity|].
  destruct (Htrue eq_refl) as (text1 & Hh & Hw).
  exists out, text1. split; [exact Hout|]. split; [exact Hh | exact Hw].
Defined.

(** C7, as the description has it, fails on markup whose svg dimensions are
    written without quotes.  The tree has the two attributes, so the detector
    returns true; neither pattern matches the text, which asks for a quote
    on either side of [100%]; no substitution is made. *)
Lemma unquoted_dimensions_stay :
  fixup_text (fun _ => parsed doc_svg) 5 text_unquoted = Done true
  /\ regex_match svg_height text_unquoted = None
  /\ regex_match svg_width text_unquoted = None
  /\ UpdatePage_svg_fixup (fun _ => parsed doc_svg) 5 text_unquoted
     = Done text_unquoted
  /\ ~ (exists text1 : string,
          exchanges svg_height "100vh" text_unquoted text1)
  /\ ~ (exists text1 : string,
          exchanges svg_width "100vw" text_unquoted text1).
Proof.
  do 4 (split; [vm_compute; reflexivity|]).
  split; intros (text1 & pre & m1 & m3 & post & _ & _ & _ & _ & Hm & _);
    vm_compute in Hm; discriminate Hm.
Qed.

Lemma early_exit_same_decision_witness :
  detect_dom 5 doc_three_children = Done false
  /\ @scan_children _ (dom_interface doc_three_children)
       ([[1; 0]; [1; 1]] ++ [[1; 2]]) [] 0
     = @scan_children _ (dom_interface doc_three_children)
         [[1; 0]; [1; 1]] [] 0.
Proof.
  destruct (@early_exit_same_decision _ (dom_interface doc_three_children) 5
              [1] [[1; 0]; [1; 1]] [[1; 2]]) as (H1 & H2 & _).
  - vm_compute; reflexivity.
  - vm_compute; reflexivity.
  - vm_compute. lia.
  - split; [exact H1 | exact H2].
Defined.

Lemma detector_terminates_witness :
  exists fuel0 : nat,
    forall fuel : nat, fuel0 <= fuel ->
      (exists b : bool, detect_dom fuel doc_div_svg = Done b)
      /\ (forall image_node : list nat,
            nodes_in doc_div_svg GUMBO_TAG_IMAGE = [image_node] ->
            length (nodes_in doc_div_svg GUMBO_TAG_BODY) = 1 ->
            exists path_pieces,
              path_in doc_div_svg fuel image_node = Done path_pieces).
Proof.
  apply (@detector_terminates _ (dom_interface doc_div_svg)).
  - intros tag. destruct tag; vm_compute; repeat constructor.
  - intros image_node body_node Hi Hb.
    vm_compute in Hi. vm_compute in Hb.
    injection Hi as <-. injection Hb as <-.
    exists 3. reflexivity.
Defined.

(** ** Searching and inserting in the markup *)

Lemma startsWith_app (s needle : string) :
  startsWith s needle = true <-> exists rest, s = needle +:+ rest.
Proof.
  revert s. induction needle as [|a needle IH]; intros s; simpl.
  - split; [intros _; exists s; reflexivity | reflexivity].
  - destruct s as [|b s].
    + split; [discriminate | intros [rest H]; discriminate H].
    + rewrite andb_true_iff, Ascii.eqb_eq, IH. split.
      * intros [-> [rest ->]]. exists rest. reflexivity.
      * intros [rest H]. rewrite string_app_cons in H.
        injection H as -> ->. split; [reflexivity | eauto].
Qed.

Lemma string_app_empty_r (s : string) : s +:+ EmptyString = s.
Proof.
  induction s as [|a s IH]; [reflexivity|].
  rewrite string_app_cons. f_equal. exact IH.
Qed.

Lemma mid_length_le (k : nat) (s : string) :
  String.length s <= k -> mid k s = EmptyString.
Proof.
  revert s. induction k as [|k IH]; intros [|a s] H; simpl in *;
    try reflexivity; try lia.
  apply IH. lia.
Qed.

(** What a successful search has found. *)
Lemma index_from_found (s needle : string) :
  forall pos i : nat,
    index_from s needle pos = Some i ->
    exists pre rest : string,
      first_occurrence needle s pre rest /\ i = pos + String.length pre.
Proof.
  induction s as [|a s IH]; intros pos i H; simpl in H.
  - destruct (startsWith EmptyString needle) eqn:Hs; [|discriminate].
    injection H as <-. apply startsWith_app in Hs. destruct Hs as [rest Hs].
    exists EmptyString, rest. split; [split|].
    + exact Hs.
    + simpl. intros k Hk. lia.
    + simpl. lia.
  - destruct (startsWith (String a s) needle) eqn:Hs.
    + injection H as <-. apply startsWith_app in Hs. destruct Hs as [rest Hs].
      exists EmptyString, rest. split; [split|].
      * exact Hs.
      * simpl. intros k Hk. lia.
      * simpl. lia.
    + destruct (IH _ _ H) as (pre & rest & [Heq Hfirst] & ->).
      exists (String a pre), rest. split; [split|].
      * rewrite string_app_cons. f_equal. exact Heq.
      * simpl. intros [|k] Hk; [exact Hs|]. simpl. apply Hfirst. lia.
      * simpl. lia.
Qed.

Lemma index_from_absent (s needle : string) :
  forall pos : nat,
    index_from s needle pos = None -> absent needle s.
Proof.
  induction s as [|a s IH]; intros pos H k; simpl in H.
  - destruct (startsWith EmptyString needle) eqn:Hs; [discriminate|].
    destruct k; exact Hs.
  - destruct (startsWith (String a s) needle) eqn:Hs; [discriminate|].
    destruct k as [|k]; [exact Hs|]. simpl. exact (IH _ H k).
Qed.

(** The converse: a first occurrence is what the search returns. *)
Lemma index_from_first (needle pre rest : string) :
  forall (s : string) (pos : nat),
    first_occurrence needle s pre rest ->
    index_from s needle pos = Some (pos + String.length pre).
Proof.
  induction pre as [|a pre IH]; intros s pos [Heq Hfirst].
  - assert (Hs : startsWith s needle = true).
    { apply startsWith_app. exists rest. exact Heq. }
    destruct s; simpl; rewrite Hs; f_equal; lia.
  - rewrite string_app_cons in Heq. subst s. simpl.
    pose proof (Hfirst 0 ltac:(simpl; lia)) as H0. simpl in H0.
    change (startsWith (String a (pre +:+ needle +:+ rest)) needle = false) in H0.
    rewrite H0.
    rewrite (IH (pre +:+ needle +:+ rest) (S pos)).
    + f_equal. lia.
    + split; [reflexivity|]. intros k Hk.
      apply (Hfirst (S k)). simpl. lia.
Qed.

Lemma indexOf_first (needle s pre rest : string) :
  first_occurrence needle s pre rest ->
  indexOf s needle = Z.of_nat (String.length pre).
Proof.
  intros H. unfold indexOf. rewrite (index_from_first _ _ _ _ 0 H). reflexivity.
Qed.

Lemma indexOf_absent (needle s : string) :
  absent needle s -> indexOf s needle = (-1)%Z.
Proof.
  intros H. unfold indexOf.
  destruct (index_from s needle 0) as [i|] eqn:Hi; [|reflexivity].
  destruct (index_from_found _ _ _ _ Hi) as (pre & rest & [Heq Hfirst] & _).
  specialize (H (String.length pre)). subst s.
  rewrite mid_app in H.
  assert (Ht : startsWith (needle +:+ rest) needle = true)
    by (apply startsWith_app; eauto).
  congruence.
Qed.

(** Inserting at the end of a prefix. *)
Lemma insert_at_prefix (pre rest str : string) :
  insert (pre +:+ rest) (Z.of_nat (String.length pre)) str
  = pre +:+ str +:+ rest.
Proof.
  unfold insert.
  assert (Hneg : (Z.of_nat (String.length pre) <? 0)%Z = false)
    by (apply Z.ltb_ge; lia).
  rewrite Hneg. simpl.
  destruct (isEmpty str) eqn:He.
  - apply isEmpty_eq in He. subst str. reflexivity.
  - rewrite Nat2Z.id.
    assert (Hlt : (String.length (pre +:+ rest) <? String.length pre)%nat = false).
    { apply Nat.ltb_ge. rewrite string_length_app. lia. }
    rewrite Hlt, left_app, mid_app. reflexivity.
Qed.

Lemma utf16_length_app (a b : string) :
  utf16_length (a +:+ b) = utf16_length a + utf16_length b.
Proof.
  induction a as [|x a IH]; [reflexivity|].
  rewrite string_app_cons. simpl. rewrite IH. lia.
Qed.

Lemma qt_offset_prefix (pre rest : string) :
  qt_offset (pre +:+ rest) (Z.of_nat (String.length pre))
  = Z.of_nat (utf16_length pre).
Proof.
  unfold qt_offset.
  assert (Hneg : (Z.of_nat (String.length pre) <? 0)%Z = false)
    by (apply Z.ltb_ge; lia).
  rewrite Hneg, Nat2Z.id, left_app. reflexivity.
Qed.

(** X1.  What [UpdatePage] does with a string to inject.  If [</head>] does
    not occur in the text, nothing is inserted.  If its first occurrence
    starts at offset 0 or 1, nothing is inserted either.  Otherwise the string
    is inserted right in front of the first occurrence and the rest of the
    text is left as it is. *)
Theorem head_injection_cases (inject text : string) :
  (absent "</head>" text /\ inject_before_head inject text = text)
  \/ (exists pre rest : string,
        first_occurrence "</head>" text pre rest
        /\ utf16_length pre <= 1
        /\ inject_before_head inject text = text)
  \/ (exists pre rest : string,
        first_occurrence "</head>" text pre rest
        /\ 2 <= utf16_length pre
        /\ inject_before_head inject text
           = pre +:+ inject +:+ "</head>" +:+ rest).
Proof.
  unfold inject_before_head, indexOf.
  destruct (index_from text "</head>" 0) as [i|] eqn:Hi.
  - destruct (index_from_found _ _ _ _ Hi) as (pre & rest & Hfirst & ->).
    right. change (0 + String.length pre) with (String.length pre).
    assert (Hq : qt_offset text (Z.of_nat (String.length pre))
                 = Z.of_nat (utf16_length pre))
      by (destruct Hfirst as [-> _]; apply qt_offset_prefix).
    rewrite Hq.
    destruct (Z.ltb_spec 1 (Z.of_nat (utf16_length pre))) as [Hgt|Hle].
    + right. exists pre, rest. split; [exact Hfirst|]. split; [lia|].
      destruct Hfirst as [-> _]. apply insert_at_prefix.
    + left. exists pre, rest. split; [exact Hfirst|]. split; [lia|reflexivity].
  - left. split; [exact (index_from_absent _ _ _ Hi) | reflexivity].
Qed.

(** One letter outside ASCII in front of [</head>] is two bytes and one
    unit: offset 1, and nothing is inserted. *)
Example one_letter_before_head :
  utf16_length (String (ascii_of_nat 195) (String (ascii_of_nat 169) "</head>"))
  = 8
  /\ inject_before_head "<link/>"
       (String (ascii_of_nat 195) (String (ascii_of_nat 169) "</head>"))
     = String (ascii_of_nat 195) (String (ascii_of_nat 169) "</head>").
Proof. split; vm_compute; reflexivity. Qed.

(** ** The patterns find what is there *)

Lemma match_here_many (R : Type) (c : ascii -> bool) (p : list atom)
    (s : string) (pos : nat) (k : string -> nat -> option R) :
  match_here (Many c :: p) s pos k
  = match s with
    | String a s' =>
        if c a then
          match match_here (Many c :: p) s' (S pos) k with
          | Some r => Some r
          | None => match_here p s pos k
          end
        else match_here p s pos k
    | EmptyString => match_here p s pos k
    end.
Proof. destruct s; reflexivity. Qed.

(** If a piece is matched by the atoms and the continuation accepts what
    follows, the matcher succeeds (possibly with another split). *)
Lemma match_here_complete {R : Type} (p : list atom) (m : string) :
  accepts p m ->
  forall (rest : string) (pos : nat) (k : string -> nat -> option R),
    is_Some (k rest (pos + String.length m)) ->
    is_Some (match_here p (m +:+ rest) pos k).
Proof.
  induction 1 as [|c p a m Hc Hacc IH|c p m Hacc IH|c p a m Hc Hacc IH
                  |forms p form m Hin Hacc IH];
    intros rest pos k Hk.
  - simpl in *. rewrite Nat.add_0_r in Hk. exact Hk.
  - rewrite string_app_cons. simpl. rewrite Hc. apply IH.
    simpl in Hk. replace (S pos + String.length m) with (pos + S (String.length m)) by lia.
    exact Hk.
  - rewrite match_here_many.
    specialize (IH rest pos k Hk).
    destruct (m +:+ rest) as [|a s']; [exact IH|].
    destruct (c a); [|exact IH].
    destruct (match_here (Many c :: p) s' (S pos) k); [eauto | exact IH].
  - rewrite string_app_cons, match_here_many, Hc.
    assert (Hin : is_Some (match_here (Many c :: p) (m +:+ rest) (S pos) k)).
    { apply IH. simpl in Hk.
      replace (S pos + String.length m) with (pos + S (String.length m)) by lia.
      exact Hk. }
    destruct Hin as [r Hr]. rewrite Hr. eauto.
  - rewrite string_app_assoc.
    assert (Hgo : is_Some (match_here p (m +:+ rest)
                             (pos + String.length form) k)).
    { apply IH. rewrite string_length_app, Nat.add_assoc in Hk. exact Hk. }
    induction forms as [|f forms IHf]; [contradiction|].
    rewrite match_here_forms.
    destruct Hin as [-> | Hin].
    + assert (Hs : strip form (form +:+ m +:+ rest) = Some (m +:+ rest))
        by (now apply strip_app).
      rewrite Hs. destruct Hgo as [r Hr]. rewrite Hr. eauto.
    + destruct (strip f (form +:+ m +:+ rest)) as [s0|]; [|now apply IHf].
      destruct (match_here p s0 (pos + String.length f) k); [eauto|].
      now apply IHf.
Qed.

Lemma match_at_complete (re : regex) (m1 g m3 post : string) (pos : nat) :
  accepts (before re) m1 -> accepts (group re) g -> accepts (after re) m3 ->
  is_Some (match_at re (m1 +:+ g +:+ m3 +:+ post) pos).
Proof.
  intros H1 H2 H3. unfold match_at.
  apply (match_here_complete _ _ H1).
  apply (match_here_complete _ _ H2).
  apply (match_here_complete _ _ H3).
  eauto.
Qed.

Lemma search_complete (re : regex) (pre : string) :
  forall (x : string) (pos : nat),
    is_Some (match_at re x (pos + String.length pre)) ->
    is_Some (search re (pre +:+ x) pos).
Proof.
  induction pre as [|a pre IH]; intros x pos H.
  - rewrite string_app_nil. simpl in H. rewrite Nat.add_0_r in H.
    destruct H as [r Hr]. destruct x; simpl; rewrite Hr; eauto.
  - rewrite string_app_cons. simpl.
    destruct (match_at re (String a (pre +:+ x)) pos); [eauto|].
    apply IH. simpl in H.
    replace (S pos + String.length pre) with (pos + S (String.length pre)) by lia.
    exact H.
Qed.

(** Reading [accepts] atom by atom. *)
Lemma accepts_nil_inv (m : string) : accepts [] m -> m = EmptyString.
Proof. intros H. inversion H. reflexivity. Qed.

Lemma accepts_one_inv (c : ascii -> bool) (p : list atom) (m : string) :
  accepts (One c :: p) m ->
  exists a m', m = String a m' /\ c a = true /\ accepts p m'.
Proof. intros H. inversion H; subst. eauto. Qed.

Lemma accepts_many_inv (c : ascii -> bool) (p : list atom) (m : string) :
  accepts (Many c :: p) m ->
  exists m1 m2, m = m1 +:+ m2 /\ all_in c m1 = true /\ accepts p m2.
Proof.
  intros H. remember (Many c :: p) as q eqn:Hq.
  induction H as [|c' p' a m Hc Hacc IH|c' p' m Hacc IH|c' p' a m Hc Hacc IH
                  |forms p' form m Hin Hacc IH];
    try discriminate; injection Hq as -> ->.
  - exists EmptyString, m.
    split; [reflexivity | split; [reflexivity | exact Hacc]].
  - destruct (IH eq_refl) as (m1 & m2 & -> & Hall & Hp).
    exists (String a m1), m2.
    split; [reflexivity | split; [|exact Hp]].
    simpl. rewrite Hc, Hall. reflexivity.
Qed.

Lemma accepts_many_build (c : ascii -> bool) (p : list atom) (m1 m2 : string) :
  all_in c m1 = true -> accepts p m2 -> accepts (Many c :: p) (m1 +:+ m2).
Proof.
  induction m1 as [|a m1 IH]; intros Hall Hp.
  - apply accepts_many_stop. exact Hp.
  - simpl in Hall. apply andb_true_iff in Hall. destruct Hall as [Ha Hall].
    rewrite string_app_cons. apply accepts_many_more; [exact Ha | now apply IH].
Qed.

Lemma accepts_literal_inv (g : string) (p : list atom) :
  forall m, accepts (literal g ++ p) m ->
            exists m2, m = g +:+ m2 /\ accepts p m2.
Proof.
  induction g as [|x g IH]; intros m H; simpl in H.
  - exists m. split; [reflexivity | exact H].
  - apply accepts_one_inv in H. destruct H as (a & m' & -> & Hc & H).
    unfold is_char in Hc. apply Ascii.eqb_eq in Hc. subst a.
    destruct (IH _ H) as (m2 & -> & Hp). exists m2. split; [reflexivity | exact Hp].
Qed.

Lemma accepts_literal_build (g : string) (p : list atom) (m2 : string) :
  accepts p m2 -> accepts (literal g ++ p) (g +:+ m2).
Proof.
  intros Hp. induction g as [|x g IH]; [exact Hp|].
  simpl. rewrite string_app_cons. apply accepts_one; [|exact IH].
  unfold is_char. apply Ascii.eqb_refl.
Qed.

(** The math pattern, read as a description of a start tag. *)
Lemma accepts_mathused (m : string) :
  accepts (before mathused) m <-> math_start_tag m.
Proof.
  unfold math_start_tag. simpl before.
  change ([One (is_char "<"%char); Many is_space] ++ literal "math "
          ++ [Many not_gt; One (is_char ">"%char)])
    with (One (is_char "<"%char) :: Many is_space
          :: (literal "math " ++ [Many not_gt; One (is_char ">"%char)])).
  split.
  - intros H.
    apply accepts_one_inv in H. destruct H as (a & m' & -> & Hc & H).
    unfold is_char in Hc. apply Ascii.eqb_eq in Hc. subst a.
    apply accepts_many_inv in H. destruct H as (ws & m2 & -> & Hws & H).
    apply (accepts_literal_inv "math " [Many not_gt; One (is_char ">"%char)])
      in H.
    destruct H as (m3 & -> & H).
    apply accepts_many_inv in H. destruct H as (attrs & m4 & -> & Hattrs & H).
    apply accepts_one_inv in H. destruct H as (b & m5 & -> & Hb & H).
    unfold is_char in Hb. apply Ascii.eqb_eq in Hb. subst b.
    apply accepts_nil_inv in H. subst m5.
    exists ws, attrs. repeat split; assumption.
  - intros (ws & attrs & -> & Hws & Hattrs).
    change ("<" +:+ ws +:+ "math " +:+ attrs +:+ ">")
      with (String "<"%char (ws +:+ "math " +:+ attrs +:+ ">")).
    apply accepts_one; [reflexivity|].
    apply accepts_many_build; [exact Hws|].
    apply (accepts_literal_build "math " [Many not_gt; One (is_char ">"%char)]).
    apply accepts_many_build; [exact Hattrs|].
    apply accepts_one; [reflexivity | constructor].
Qed.

Lemma hasMatch_mathused (text : string) :
  hasMatch mathused text = true <-> occurs_in math_start_tag text.
Proof.
  unfold hasMatch, regex_match, occurs_in. split.
  - destruct (search mathused text 0) as [[bp n]|] eqn:Hs; [intros _|discriminate].
    destruct (search_leftmost _ _ _ _ _ Hs) as (pre & rest & -> & Hat & _).
    destruct (match_at_sound _ _ _ _ _ Hat)
      as (m1 & g & m3 & post & -> & H1 & H2 & H3 & _).
    apply accepts_nil_inv in H2, H3. subst g m3.
    exists pre, m1, post. split; [reflexivity|]. now apply accepts_mathused.
  - intros (pre & m & post & -> & Hm). apply accepts_mathused in Hm.
    assert (Hsome : is_Some (search mathused (pre +:+ m +:+ post) 0)).
    { apply search_complete.
      apply (match_at_complete mathused m EmptyString EmptyString post);
        [exact Hm | constructor | constructor]. }
    destruct Hsome as [r Hr]. rewrite Hr. reflexivity.
Qed.

Lemma inject_mathjax_present (mathjaxurl text : string) :
  occurs_in math_start_tag text ->
  inject_mathjax mathjaxurl text
  = inject_before_head (mathjax_script mathjaxurl) text.
Proof.
  intros H. unfold inject_mathjax.
  apply hasMatch_mathused in H. rewrite H. reflexivity.
Qed.

(** X2.  MathJax is injected exactly for a text that holds a math start tag
    with a space after the name: [<], blanks if any, [math], one space,
    anything up to the next [>].  Then the script element goes where
    [inject_before_head] puts it; a text without such a tag, for instance one
    whose math tags have no attributes, is left as it is. *)
Theorem mathjax_only_for_math_tags (mathjaxurl text : string) :
  (occurs_in math_start_tag text ->
   inject_mathjax mathjaxurl text
   = inject_before_head (mathjax_script mathjaxurl) text)
  /\ (~ occurs_in math_start_tag text ->
      inject_mathjax mathjaxurl text = text).
Proof.
  unfold inject_mathjax. split; intros H.
  - apply hasMatch_mathused in H. rewrite H. reflexivity.
  - destruct (hasMatch mathused text) eqn:Hm; [|reflexivity].
    apply hasMatch_mathused in Hm. contradiction.
Qed.

(** X3.  If the markup holds a piece that one of the two svg patterns
    matches, the block of that pattern does not leave the text as it is: it
    exchanges the captured [100%] of the leftmost match for the new unit. *)
Theorem svg_token_exchanged_when_present (attr new text : string) :
  occurs_in (svg_dimension_tag (svg_attr_regex attr)) text ->
  exchanges (svg_attr_regex attr) new text
            (substitute (svg_attr_regex attr) new text).
Proof.
  intros (pre & m & post & -> & m1 & m3 & -> & H1 & H3).
  assert (Hsome : is_Some (regex_match (svg_attr_regex attr)
                             (pre +:+ (m1 +:+ "100%" +:+ m3) +:+ post))).
  { unfold regex_match. apply search_complete.
    rewrite !string_app_assoc.
    apply (match_at_complete (svg_attr_regex attr) m1 "100%" m3 post);
      [exact H1 | | exact H3].
    apply (accepts_literal_build "100%" [] EmptyString). constructor. }
  destruct (substitute_rewrites attr new (pre +:+ (m1 +:+ "100%" +:+ m3) +:+ post))
    as [[Hnone _] | Hex]; [|exact Hex].
  destruct Hsome as [r Hr]. congruence.
Qed.

Section DetectorConverse.

Context {Node : Type} `{gi : GumboInterface Node}.

(** X4.  No false positives: when the detector returns true, there is one
    image node, one svg node and one body node, body has exactly one counted
    child and it is named div or svg, the walk from the image has ended with
    one of the two paths, and the svg node has [width] and [height] equal to
    [100%]. *)
Theorem detected_only_if (fuel : nat) :
  fixup_fullscreen_svg_images fuel = Done true ->
  exists (image_node svg_node body_node child : Node)
         (path_pieces : list string),
    get_all_nodes_with_tag GUMBO_TAG_IMAGE = [image_node]
    /\ get_all_nodes_with_tag GUMBO_TAG_SVG = [svg_node]
    /\ get_all_nodes_with_tag GUMBO_TAG_BODY = [body_node]
    /\ List.filter significant (element_children body_node) = [child]
    /\ (get_tag_name child = "div" \/ get_tag_name child = "svg")
    /\ ancestor_path fuel image_node = Done path_pieces
    /\ (join "," path_pieces = "body,div,svg,image"
        \/ join "," path_pieces = "body,svg,image")
    /\ value (get_attributes_of_node svg_node) "width" EmptyString = "100%"
    /\ value (get_attributes_of_node svg_node) "height" EmptyString = "100%".
Proof.
  intros H.
  destruct (Nat.eq_dec (length (get_all_nodes_with_tag GUMBO_TAG_IMAGE)) 1)
    as [Ei|Ei]; [|rewrite fixup_wrong_counts in H by auto; discriminate].
  destruct (Nat.eq_dec (length (get_all_nodes_with_tag GUMBO_TAG_SVG)) 1)
    as [Es|Es]; [|rewrite fixup_wrong_counts in H by auto; discriminate].
  destruct (Nat.eq_dec (length (get_all_nodes_with_tag GUMBO_TAG_BODY)) 1)
    as [Eb|Eb]; [|rewrite fixup_wrong_counts in H by auto; discriminate].
  destruct (length_1_inv _ Ei) as [i Hi].
  destruct (length_1_inv _ Es) as [v Hv].
  destruct (length_1_inv _ Eb) as [b Hb].
  rewrite (fixup_unique_nodes fuel _ _ _ Hi Hv Hb) in H.
  destruct (List.filter significant (element_children b)) as [|c [|c' l]] eqn:Hf;
    cbn [child_verdict] in H; try discriminate.
  destruct (contains allowed_tags (get_tag_name c)) eqn:Hc;
    cbn [negb] in H; [|discriminate].
  destruct (ancestor_path fuel i) as [pieces| | |] eqn:Hp;
    cbn [bind] in H; try discriminate.
  destruct (String.eqb_spec (join "," pieces) "body,div,svg,image") as [E1|E1];
    destruct (String.eqb_spec (join "," pieces) "body,svg,image") as [E2|E2];
    simpl in H; try discriminate;
    injection H as H; apply svg_is_full_size_iff in H; destruct H as [Hw Hh];
    exists i, v, b, c, pieces;
    (repeat split; try assumption; try reflexivity;
     [apply contains_In in Hc; simpl in Hc; intuition | auto]).
Qed.

(** X5.  A child of body that is no element (text, whitespace, comment), or
    is named [script] or [style], is passed over wherever it stands: the
    scan ends in the same state as without it. *)
Theorem uncounted_child_ignored (front back : list Node) (child : Node) :
  node_type child <> GUMBO_NODE_ELEMENT
  \/ get_tag_name child = "script"
  \/ get_tag_name child = "style" ->
  scan_children (front ++ child :: back) [] 0
  = scan_children (front ++ back) [] 0.
Proof.
  intros H.
  assert (Hsig : significant child = false).
  { destruct (significant child) eqn:E; [|reflexivity].
    apply significant_iff in E. destruct E as (Ht & Hs & Hy & _).
    destruct H as [H|[H|H]]; contradiction. }
  rewrite !scan_children_counted by lia.
  rewrite !List.filter_app. simpl. rewrite Hsig. reflexivity.
Qed.

End DetectorConverse.

(** ** The window *)

Lemma isEmpty_app (a b : string) :
  isEmpty (a +:+ b) = isEmpty a && isEmpty b.
Proof. destruct a; [destruct b|]; reflexivity. Qed.

Section WindowFacts.

Variable tr_Preview : string.
Variable number : Z -> string.
Variable fileName : string -> string.
Variable parse : string -> ParsedDocument.
Variable dark : bool.
Variable AddDarkCSS : string -> string.


(** [UpdateWindowTitle] writes the two titles and nothing else. *)
Lemma UpdateWindowTitle_keeps (w : PreviewWindow) :
  m_Filepath ((UpdateWindowTitle tr_Preview number fileName) w) = m_Filepath w
  /\ m_updatingPage ((UpdateWindowTitle tr_Preview number fileName) w) = m_updatingPage w
  /\ preview_visible ((UpdateWindowTitle tr_Preview number fileName) w) = preview_visible w
  /\ preview_document ((UpdateWindowTitle tr_Preview number fileName) w) = preview_document w
  /\ overlay_shown ((UpdateWindowTitle tr_Preview number fileName) w) = overlay_shown w
  /\ progress_value ((UpdateWindowTitle tr_Preview number fileName) w) = progress_value w
  /\ overlay_timer_active ((UpdateWindowTitle tr_Preview number fileName) w) = overlay_timer_active w
  /\ isFloating ((UpdateWindowTitle tr_Preview number fileName) w) = isFloating w
  /\ preview_width ((UpdateWindowTitle tr_Preview number fileName) w) = preview_width w
  /\ preview_height ((UpdateWindowTitle tr_Preview number fileName) w) = preview_height w.
Proof.
  unfold UpdateWindowTitle, setTitleText, titleText.
  destruct (preview_visible w) eqn:Hv; simpl;
    destruct (isFloating w) eqn:Hf; simpl;
    rewrite ?Hv, ?Hf; repeat split; reflexivity.
Qed.

Lemma perform_consistent (a : action) (w w' : PreviewWindow) :
  loading_consistent w ->
  perform tr_Preview number fileName parse dark AddDarkCSS a w = Done w' ->
  loading_consistent w'.
Proof.
  intros Hw H. pose proof Hw as (Htimer & Hoverlay & Hbusy & Hrange).
  destruct a as [fuel f t l| | |val| |fl| |vis]; simpl in H.
  - unfold UpdatePage in H.
    destruct (preview_visible w); simpl in H;
      [|injection H as <-; exact Hw].
    destruct (m_updatingPage w) eqn:Hb; simpl in H;
      [injection H as <-; exact Hw|].
    match type of H with
    | bind (bind ?m _) _ = _ => destruct m as [text| | |]
    end; simpl in H; try discriminate.
    injection H as <-. unfold loading_consistent. simpl.
    split; [reflexivity|]. split; [reflexivity|]. split; [eauto|].
    intros v Hv. injection Hv as <-. lia.
  - injection H as <-. unfold UpdatePageDone, loading_consistent. simpl.
    split; [discriminate|]. split; [discriminate|]. split; discriminate.
  - injection H as <-. unfold ReloadPreview, loading_consistent. simpl.
    split; [discriminate|]. split; [discriminate|]. split; discriminate.
  - injection H as <-. unfold setProgress.
    destruct ((10 <? val)%Z && (val <? 100)%Z) eqn:Hv; [|exact Hw].
    apply andb_true_iff in Hv. destruct Hv as [H1 H2].
    apply Z.ltb_lt in H1, H2. unfold loading_consistent. simpl.
    split; [exact Htimer|]. split; [exact Hoverlay|]. split; [eauto|].
    intros v Hv. injection Hv as <-. lia.
  - injection H as <-.
    destruct (UpdateWindowTitle_keeps w)
      as (_ & Eb & _ & _ & Eo & Ep & Et & _).
    unfold loading_consistent. rewrite Eb, Eo, Ep, Et. exact Hw.
  - injection H as <-. unfold previewFloated. destruct fl; [|exact Hw].
    destruct (UpdateWindowTitle_keeps w)
      as (_ & Eb & _ & _ & Eo & Ep & Et & _).
    unfold loading_consistent. rewrite Eb, Eo, Ep, Et. exact Hw.
  - injection H as <-. destruct (overlay_timer_active w) eqn:Ht; [|exact Hw].
    unfold ShowOverlay, loading_consistent. simpl.
    split; [discriminate|]. split; [intros _; exact (Htimer eq_refl)|].
    split; [exact Hbusy | exact Hrange].
  - injection H as <-. exact Hw.
Qed.

(** X6.  Whatever is called in whatever order, the window stays consistent:
    the overlay timer runs and the overlay shows only while a load is under
    way, a load under way has a progress value, and every progress value
    shown lies between 10 and 99.  The window the constructor leaves is
    consistent. *)
Theorem loading_stays_consistent (actions : list action) (w w' : PreviewWindow) :
  loading_consistent w ->
  (run tr_Preview number fileName parse dark AddDarkCSS) actions w = Done w' ->
  loading_consistent w'.
Proof.
  revert w. induction actions as [|a actions IH]; intros w Hw H; simpl in H.
  - injection H as <-. exact Hw.
  - destruct ((perform tr_Preview number fileName parse dark AddDarkCSS) a w) as [w1| | |] eqn:Hp; simpl in H; try discriminate.
    apply (IH w1); [|exact H].
    exact (perform_consistent a w w1 Hw Hp).
Qed.

Lemma UpdatePageDone_keeps (w : PreviewWindow) :
  m_updatingPage (UpdatePageDone tr_Preview number fileName w) = false
  /\ preview_visible (UpdatePageDone tr_Preview number fileName w)
     = preview_visible w
  /\ preview_document (UpdatePageDone tr_Preview number fileName w)
     = preview_document w
  /\ m_Filepath (UpdatePageDone tr_Preview number fileName w) = m_Filepath w.
Proof.
  destruct (UpdateWindowTitle_keeps w) as (Ef & _ & Ev & Ed & _).
  unfold UpdatePageDone.
  generalize dependent (UpdateWindowTitle tr_Preview number fileName w).
  intros u Ef Ev Ed. simpl. auto.
Qed.

(** A request to a visible view on which no load is under way. *)
Lemma UpdatePage_idle (fuel : nat) (f t : string) (l : list ElementIndex)
    (w w2 : PreviewWindow) (r : bool) :
  preview_visible w = true ->
  m_updatingPage w = false ->
  UpdatePage parse dark AddDarkCSS fuel f t l w = Done (w2, r) ->
  r = true /\ m_updatingPage w2 = true /\ preview_visible w2 = true
  /\ m_Filepath w2 = f
  /\ exists shown, preview_document w2 = Some (f, shown).
Proof.
  intros Hvis Hb H. unfold UpdatePage in H. rewrite Hvis, Hb in H.
  cbn [negb] in H.
  match type of H with
  | bind ?m _ = _ => destruct m as [shown| | |]
  end; cbn [bind] in H; try discriminate.
  injection H as <- <-. simpl. repeat split; eauto.
Qed.

(** X7.  One load at a time.  After a request that was taken up while the
    view is visible, the load is under way and the document handed to the
    view carries the url of the request.  Every further request is turned
    down with false and changes nothing, until [UpdatePageDone] or
    [ReloadPreview] has been called: the next request is then taken up
    again. *)
Theorem one_load_at_a_time
    (fuel : nat) (filename_url text : string) (location : list ElementIndex)
    (w w1 : PreviewWindow) :
  preview_visible w = true ->
  UpdatePage parse dark AddDarkCSS fuel filename_url text location w
  = Done (w1, true) ->
  m_updatingPage w1 = true
  /\ preview_visible w1 = true
  /\ m_Filepath w1 = filename_url
  /\ (exists shown, preview_document w1 = Some (filename_url, shown))
  /\ (forall fuel' f' t' l',
        UpdatePage parse dark AddDarkCSS fuel' f' t' l' w1 = Done (w1, false))
  /\ (forall fuel' f' t' l' w2 r,
        UpdatePage parse dark AddDarkCSS fuel' f' t' l'
          (UpdatePageDone tr_Preview number fileName w1) = Done (w2, r)
        \/ UpdatePage parse dark AddDarkCSS fuel' f' t' l'
             (ReloadPreview w1) = Done (w2, r) ->
        r = true /\ m_updatingPage w2 = true /\ m_Filepath w2 = f'
        /\ exists shown', preview_document w2 = Some (f', shown')).
Proof.
  intros Hvis H.
  assert (Hb : m_updatingPage w = false).
  { destruct (m_updatingPage w) eqn:Hb; [|reflexivity].
    unfold UpdatePage in H. rewrite Hvis, Hb in H. discriminate H. }
  destruct (UpdatePage_idle _ _ _ _ _ _ _ Hvis Hb H)
    as (_ & Hb1 & Hv1 & Hf1 & Hd1).
  split; [exact Hb1|]. split; [exact Hv1|]. split; [exact Hf1|].
  split; [exact Hd1|]. split.
  - intros fuel' f' t' l'. unfold UpdatePage. rewrite Hv1, Hb1. reflexivity.
  - intros fuel' f' t' l' w2 r [H2|H2].
    + destruct (UpdatePageDone_keeps w1) as (Eb & Ev & _).
      rewrite Hv1 in Ev.
      destruct (UpdatePage_idle _ _ _ _ _ _ _ Ev Eb H2)
        as (-> & Hb2 & _ & Hf2 & Hd2).
      auto.
    + assert (Ev : preview_visible (ReloadPreview w1) = true)
        by (unfold ReloadPreview; simpl; exact Hv1).
      assert (Eb : m_updatingPage (ReloadPreview w1) = false) by reflexivity.
      destruct (UpdatePage_idle _ _ _ _ _ _ _ Ev Eb H2)
        as (-> & Hb2 & _ & Hf2 & Hd2).
      auto.
Qed.

(** X8.  A hidden view is left alone.  As long as the view is not made
    visible, no sequence of calls faults, parses anything, replaces the
    document of the view or changes the file path; requests to update the
    page are answered with true all the same. *)
Theorem hidden_preview_untouched (actions : list action) (w : PreviewWindow) :
  preview_visible w = false ->
  Forall (fun a => a <> Visibility true) actions ->
  (exists w', (run tr_Preview number fileName parse dark AddDarkCSS) actions w = Done w'
              /\ preview_visible w' = false
              /\ preview_document w' = preview_document w
              /\ m_Filepath w' = m_Filepath w)
  /\ (forall fuel f t l, (UpdatePage parse dark AddDarkCSS) fuel f t l w = Done (w, true)).
Proof.
  intros Hvis Hall. split.
  2:{ intros. unfold UpdatePage. rewrite Hvis. reflexivity. }
  revert w Hvis. induction Hall as [|a actions Ha Hall IH]; intros w Hvis.
  - exists w. simpl. repeat split; reflexivity || assumption.
  - assert (Hstep : exists w1, (perform tr_Preview number fileName parse dark AddDarkCSS) a w = Done w1
                               /\ preview_visible w1 = false
                               /\ preview_document w1 = preview_document w
                               /\ m_Filepath w1 = m_Filepath w).
    { destruct a as [fuel f t l| | |val| |fl| |vis]; simpl.
      - unfold UpdatePage. rewrite Hvis. simpl. eauto.
      - eexists. split; [reflexivity|].
        destruct (UpdatePageDone_keeps w) as (_ & Ev & Ed & Ef).
        rewrite Ef, Ev, Ed. auto.
      - eexists. split; [reflexivity|]. unfold ReloadPreview. simpl. auto.
      - eexists. split; [reflexivity|]. unfold setProgress.
        destruct (_ && _); simpl; auto.
      - eexists. split; [reflexivity|].
        destruct (UpdateWindowTitle_keeps w) as (Ef & _ & Ev & Ed & _).
        rewrite Ef, Ev, Ed. auto.
      - eexists. split; [reflexivity|]. unfold previewFloated.
        destruct fl; [|auto].
        destruct (UpdateWindowTitle_keeps w) as (Ef & _ & Ev & Ed & _).
        rewrite Ef, Ev, Ed. auto.
      - eexists. split; [reflexivity|].
        destruct (overlay_timer_active w); unfold ShowOverlay; simpl; auto.
      - destruct vis; [contradiction|].
        eexists. split; [reflexivity|]. simpl. auto. }
    destruct Hstep as (w1 & Hp & Hv1 & Hd1 & Hf1).
    destruct (IH w1 Hv1) as (w' & Hr & Hv' & Hd' & Hf').
    exists w'. simpl. rewrite Hp. simpl.
    split; [exact Hr|]. split; [exact Hv'|]. split; congruence.
Qed.

Lemma title_not_empty (rest : string) :
  isEmpty (tr_Preview +:+ " (" +:+ rest) = false.
Proof. destruct tr_Preview; reflexivity. Qed.

(** X9.  After [UpdateWindowTitle] the window title of a floating dock is
    the title text that [titleText] returns, and that of a docked one is
    the translated word Preview.  With a visible view the title text is
    Preview, the size of the view as width x height in brackets and the file
    name, and [titleText] returns it rather than the window title.  Calling
    the function a second time changes nothing. *)
Theorem window_title_settles (w : PreviewWindow) :
  (isFloating w = true ->
   windowTitle (UpdateWindowTitle tr_Preview number fileName w)
   = titleText (UpdateWindowTitle tr_Preview number fileName w))
  /\ (isFloating w = false ->
      windowTitle (UpdateWindowTitle tr_Preview number fileName w)
      = tr_Preview)
  /\ (preview_visible w = true ->
      titleText (UpdateWindowTitle tr_Preview number fileName w)
      = tr_Preview +:+ " (" +:+ number (preview_width w) +:+ "x"
        +:+ number (preview_height w) +:+ ") "
        +:+ (if isEmpty (m_Filepath w) then EmptyString
             else fileName (m_Filepath w)))
  /\ UpdateWindowTitle tr_Preview number fileName
       (UpdateWindowTitle tr_Preview number fileName w)
     = UpdateWindowTitle tr_Preview number fileName w.
Proof.
  destruct w as [fp tt up loc css mj vis wd ht doc ov pv tm wt fl].
  unfold UpdateWindowTitle, setTitleText, titleText, set_m_titleText,
    set_windowTitle.
  cbn [m_Filepath m_titleText m_updatingPage m_location m_usercssurl
       m_mathjaxurl preview_visible preview_width preview_height
       preview_document overlay_shown progress_value overlay_timer_active
       windowTitle isFloating].
  destruct vis, fl;
    cbn [m_Filepath m_titleText m_updatingPage m_location m_usercssurl
         m_mathjaxurl preview_visible preview_width preview_height
         preview_document overlay_shown progress_value overlay_timer_active
         windowTitle isFloating negb];
    rewrite ?title_not_empty;
    repeat split; try discriminate; try reflexivity.
  - intros _. destruct (isEmpty fp); reflexivity.
  - intros _. destruct (isEmpty fp); reflexivity.
  - destruct (isEmpty tt); reflexivity.
  - destruct (isEmpty tt) eqn:E; cbn [windowTitle m_titleText];
      rewrite ?E; reflexivity.
Qed.

(** X10.  What [LinkClicked] asks to be opened.  An empty url: nothing.  A
    url that is a fragment only: the name of the current file followed by
    that fragment.  A file url in which [/#] occurs: the same url with the
    name of the current file put between the first such [/] and its [#].
    Any other url: the url as it is. *)
Theorem link_clicked_cases (url : QUrl) (w : PreviewWindow) :
  (toString url = EmptyString -> LinkClicked fileName url w = None)
  /\ (forall frag : string,
        toString url = "#" +:+ frag ->
        LinkClicked fileName url w
        = Some (fileName (m_Filepath w) +:+ "#" +:+ frag))
  /\ (forall pre rest : string,
        startsWith (toString url) "#" = false ->
        scheme url = "file" ->
        first_occurrence "/#" (toString url) pre rest ->
        LinkClicked fileName url w
        = Some (pre +:+ "/" +:+ fileName (m_Filepath w) +:+ "#" +:+ rest))
  /\ (toString url <> EmptyString ->
      startsWith (toString url) "#" = false ->
      scheme url <> "file" \/ absent "/#" (toString url) ->
      LinkClicked fileName url w = Some (toString url)).
Proof.
  unfold LinkClicked. split; [|split; [|split]].
  - intros ->. reflexivity.
  - intros frag ->. reflexivity.
  - intros pre rest Hs Hf Hfirst.
    assert (Hne : isEmpty (toString url) = false).
    { destruct Hfirst as [-> _]. destruct pre; reflexivity. }
    rewrite Hne, Hs, Hf. simpl String.eqb.
    unfold contains_string. rewrite (indexOf_first _ _ _ _ Hfirst).
    assert (Hidx : (Z.of_nat (String.length pre) =? -1)%Z = false)
      by (apply Z.eqb_neq; lia).
    rewrite Hidx. simpl negb. cbv iota. f_equal.
    destruct Hfirst as [-> _].
    replace (Z.of_nat (String.length pre) + 1)%Z
      with (Z.of_nat (String.length (pre +:+ "/")))
      by (rewrite string_length_app; simpl; lia).
    change (pre +:+ "/#" +:+ rest) with (pre +:+ "/" +:+ "#" +:+ rest).
    rewrite <- (string_app_assoc pre "/" ("#" +:+ rest)).
    rewrite insert_at_prefix. apply string_app_assoc.
  - intros Hne Hs Hcase.
    assert (He : isEmpty (toString url) = false).
    { destruct (toString url); [contradiction | reflexivity]. }
    rewrite He, Hs.
    destruct (String.eqb_spec (scheme url) "file") as [Hf|Hf]; [|reflexivity].
    destruct Hcase as [Hc|Hc]; [contradiction|].
    unfold contains_string. rewrite (indexOf_absent _ _ Hc). reflexivity.
Qed.

End WindowFacts.

(** ** The two injections together *)

Lemma mid_app_le (k : nat) (a b : string) :
  k <= String.length a -> mid k (a +:+ b) = mid k a +:+ b.
Proof.
  revert a. induction k as [|k IH]; intros a Hk.
  - rewrite !mid_0. reflexivity.
  - destruct a as [|x a]; simpl in Hk; [lia|].
    rewrite string_app_cons. simpl. apply IH. lia.
Qed.

Lemma mid_app_ge (k : nat) (a b : string) :
  String.length a <= k -> mid k (a +:+ b) = mid (k - String.length a) b.
Proof.
  revert k. induction a as [|x a IH]; intros k Hk.
  - rewrite string_app_nil. simpl. rewrite Nat.sub_0_r. reflexivity.
  - destruct k as [|k]; simpl in Hk; [lia|].
    rewrite string_app_cons. simpl. apply IH. lia.
Qed.

Lemma mid_nonempty (k : nat) (s : string) :
  k < String.length s -> mid k s <> EmptyString.
Proof.
  revert s. induction k as [|k IH]; intros [|x s] Hk; simpl in *;
    try lia; try discriminate.
  apply IH. lia.
Qed.

Lemma startsWith_app_l (q x needle : string) :
  startsWith q needle = true -> startsWith (q +:+ x) needle = true.
Proof.
  intros H. apply startsWith_app in H. destruct H as [rest ->].
  apply startsWith_app. exists (rest +:+ x). apply string_app_assoc.
Qed.

(** A needle at the head of [q x] lies in [q], or [q] is a proper start of
    it and [x] goes on with the rest. *)
Lemma startsWith_app_cases (needle : string) :
  forall q x : string,
    startsWith (q +:+ x) needle = true ->
    startsWith q needle = true
    \/ exists n2, needle = q +:+ n2 /\ n2 <> EmptyString
                  /\ startsWith x n2 = true.
Proof.
  induction needle as [|a needle IH]; intros q x H.
  - left. reflexivity.
  - destruct q as [|b q].
    + right. exists (String a needle). rewrite string_app_nil in H.
      split; [reflexivity | split; [discriminate | exact H]].
    + rewrite string_app_cons in H. simpl in H.
      apply andb_true_iff in H. destruct H as [Hab H].
      destruct (IH q x H) as [Hq | (n2 & -> & Hn & Hx)].
      * left. simpl. rewrite Hab, Hq. reflexivity.
      * right. exists n2. apply Ascii.eqb_eq in Hab. subst b.
        split; [reflexivity | split; assumption].
Qed.

(** An occurrence of [</head>] that starts in a non-empty piece [q] and runs
    into what follows lies in [q] altogether, when what follows starts with a
    character that [</head>] has only in front, or not at all. *)
Lemma head_tag_no_straddle (q x : string) (c : ascii) :
  existsb (Ascii.eqb c) ["/"; "h"; "e"; "a"; "d"; ">"]%char = false ->
  q <> EmptyString ->
  startsWith (q +:+ String c x) "</head>" = true ->
  startsWith q "</head>" = true.
Proof.
  intros Hc Hq H.
  destruct (startsWith_app_cases _ _ _ H) as [Hin | (n2 & Heq & Hn & Hx)];
    [exact Hin | exfalso].
  destruct n2 as [|c' n2]; [contradiction|].
  simpl in Hx. apply andb_true_iff in Hx. destruct Hx as [Hcc _].
  apply Ascii.eqb_eq in Hcc. subst c'.
  destruct q as [|b q]; [contradiction|].
  rewrite string_app_cons in Heq. injection Heq as _ Heq.
  repeat (destruct q as [|? q];
          [rewrite string_app_nil in Heq; injection Heq as Heq _;
           subst c; simpl in Hc; discriminate Hc
          |rewrite string_app_cons in Heq; injection Heq as _ Heq]).
  destruct q; discriminate Heq.
Qed.

(** The stylesheet link holds no [</head>] of its own when the url holds
    none, and none can start in it and end behind it. *)
Lemma link_has_no_head_tag (usercssurl : string) :
  absent "</head>" usercssurl ->
  forall (j : nat) (z : string),
    j < String.length (user_stylesheet_link usercssurl) ->
    startsWith (mid j (user_stylesheet_link usercssurl) +:+ z) "</head>" = false.
Proof.
  intros Habs j z Hj.
  set (A := "<link rel=" +:+ dquote +:+ "stylesheet" +:+ dquote
            +:+ " type=" +:+ dquote +:+ "text/css" +:+ dquote
            +:+ " href=" +:+ dquote).
  set (B := dquote +:+ " />" +:+ newline).
  assert (Hlink : user_stylesheet_link usercssurl = A +:+ usercssurl +:+ B)
    by reflexivity.
  rewrite Hlink in *. clear Hlink.
  rewrite !string_length_app in Hj.
  change (String.length A) with 45 in Hj. change (String.length B) with 5 in Hj.
  destruct (Nat.lt_ge_cases j 45) as [HA|HA].
  - clear Hj Habs. subst A.
    do 45 (destruct j as [|j]; [reflexivity|]). lia.
  - rewrite (mid_app_ge j A) by (change (String.length A) with 45; lia).
    change (String.length A) with 45.
    destruct (Nat.lt_ge_cases (j - 45) (String.length usercssurl)) as [HU|HU].
    + rewrite mid_app_le by lia. rewrite string_app_assoc.
      destruct (startsWith (mid (j - 45) usercssurl +:+ B +:+ z) "</head>")
        eqn:Hs; [|reflexivity].
      change (B +:+ z) with (String (ascii_of_nat 34) ((" />" +:+ newline) +:+ z))
        in Hs.
      apply head_tag_no_straddle in Hs;
        [|reflexivity | now apply mid_nonempty].
      rewrite (Habs (j - 45)) in Hs. discriminate Hs.
    + rewrite mid_app_ge by lia.
      assert (HB : j - 45 - String.length usercssurl < 5) by lia.
      clear - HB. subst B.
      destruct (j - 45 - String.length usercssurl) as [|[|[|[|[|k]]]]];
        try reflexivity. lia.
Qed.

(** Inserting a string that starts with [<] and brings no [</head>] in front
    of the first [</head>] leaves that occurrence the first one. *)
Lemma first_occurrence_after_insert (text pre rest inject' : string) :
  first_occurrence "</head>" text pre rest ->
  (forall (j : nat) (z : string),
     j < String.length (String "<"%char inject') ->
     startsWith (mid j (String "<"%char inject') +:+ z) "</head>" = false) ->
  first_occurrence "</head>"
    (pre +:+ String "<"%char inject' +:+ "</head>" +:+ rest)
    (pre +:+ String "<"%char inject') rest.
Proof.
  intros [Heq Hfirst] Hinj. split; [symmetry; apply string_app_assoc|].
  intros k Hk. rewrite string_length_app in Hk.
  destruct (Nat.lt_ge_cases k (String.length pre)) as [Hp|Hp].
  - rewrite mid_app_le by lia.
    destruct (startsWith _ _) eqn:Hs; [|reflexivity].
    rewrite string_app_cons in Hs.
    apply head_tag_no_straddle in Hs;
      [|reflexivity | now apply mid_nonempty].
    specialize (Hfirst k Hp). rewrite Heq, mid_app_le in Hfirst by lia.
    rewrite (startsWith_app_l _ _ _ Hs) in Hfirst. discriminate Hfirst.
  - rewrite mid_app_ge by lia. rewrite mid_app_le by lia.
    apply Hinj. lia.
Qed.

(** X11.  The two injections together.  With a stylesheet url that is not
    empty and holds no [</head>], a text whose first [</head>] starts at
    offset 2 or later, and a math start tag before or after it, the text that
    results is the old one with the stylesheet link and, right after it, the
    MathJax script put in front of that first [</head>]. *)
Theorem stylesheet_then_mathjax
    (usercssurl mathjaxurl text pre rest : string) :
  usercssurl <> EmptyString ->
  absent "</head>" usercssurl ->
  first_occurrence "</head>" text pre rest ->
  2 <= utf16_length pre ->
  occurs_in math_start_tag pre \/ occurs_in math_start_tag rest ->
  inject_mathjax mathjaxurl (inject_user_stylesheet usercssurl text)
  = pre +:+ user_stylesheet_link usercssurl +:+ mathjax_script mathjaxurl
    +:+ "</head>" +:+ rest.
Proof.
  intros Hurl Habs Hfirst Hlen Hmath.
  assert (Hcss : inject_user_stylesheet usercssurl text
                 = pre +:+ user_stylesheet_link usercssurl
                   +:+ "</head>" +:+ rest).
  { unfold inject_user_stylesheet.
    destruct usercssurl as [|u0 u]; [contradiction|]. cbn [isEmpty negb].
    unfold inject_before_head. rewrite (indexOf_first _ _ _ _ Hfirst).
    destruct Hfirst as [-> _]. rewrite qt_offset_prefix.
    assert (Hgt : (1 <? Z.of_nat (utf16_length pre))%Z = true)
      by (apply Z.ltb_lt; lia).
    rewrite Hgt. apply insert_at_prefix. }
  rewrite Hcss.
  assert (Hhas : occurs_in math_start_tag
                   (pre +:+ user_stylesheet_link usercssurl
                    +:+ "</head>" +:+ rest)).
  { destruct Hmath as [(a & m & b & -> & Hm) | (a & m & b & -> & Hm)].
    - exists a, m, (b +:+ user_stylesheet_link usercssurl +:+ "</head>" +:+ rest).
      split; [|exact Hm]. rewrite !string_app_assoc. reflexivity.
    - exists (pre +:+ user_stylesheet_link usercssurl +:+ "</head>" +:+ a), m, b.
      split; [|exact Hm]. rewrite !string_app_assoc. reflexivity. }
  rewrite (inject_mathjax_present mathjaxurl _ Hhas). clear Hhas Hcss.
  assert (Hfirst' : first_occurrence "</head>"
                      (pre +:+ user_stylesheet_link usercssurl
                       +:+ "</head>" +:+ rest)
                      (pre +:+ user_stylesheet_link usercssurl) rest).
  { change (user_stylesheet_link usercssurl)
      with (String "<"%char
              ("link rel=" +:+ dquote +:+ "stylesheet" +:+ dquote
               +:+ " type=" +:+ dquote +:+ "text/css" +:+ dquote
               +:+ " href=" +:+ dquote +:+ usercssurl +:+ dquote
               +:+ " />" +:+ newline)).
    apply (first_occurrence_after_insert text); [exact Hfirst|].
    exact (link_has_no_head_tag usercssurl Habs). }
  unfold inject_before_head. rewrite (indexOf_first _ _ _ _ Hfirst').
  rewrite <- (string_app_assoc pre (user_stylesheet_link usercssurl)).
  rewrite qt_offset_prefix.
  assert (Hgt : (1 <? Z.of_nat (utf16_length
                                  (pre +:+ user_stylesheet_link usercssurl)))%Z
                = true).
  { apply Z.ltb_lt. rewrite utf16_length_app. lia. }
  rewrite Hgt.
  rewrite insert_at_prefix. apply string_app_assoc.
Qed.

(** ** Instances of the further properties *)

(** Builds a derivation of [accepts] for a given string, giving back
    characters to a star when the rest does not fit. *)
Lemma accepts_forms_at (n : nat) (forms : list string) (p : list atom)
    (form s s' : string) :
  nth_error forms n = Some form ->
  strip form s = Some s' ->
  accepts p s' ->
  accepts (Forms forms :: p) s.
Proof.
  intros Hn Hs Hacc. apply strip_app in Hs. subst s.
  apply accepts_forms; [now apply nth_error_In with n | exact Hacc].
Qed.

Ltac accept :=
  lazymatch goal with
  | |- accepts [] _ => apply accepts_nil
  | |- accepts (One _ :: _) _ => apply accepts_one; [reflexivity | accept]
  | |- accepts (Many _ :: _) _ =>
      first [ apply accepts_many_more; [reflexivity | accept]
            | apply accepts_many_stop; accept ]
  | |- accepts (Forms _ :: _) _ =>
      first [ eapply (accepts_forms_at 0); [reflexivity | reflexivity | accept]
            | eapply (accepts_forms_at 1); [reflexivity | reflexivity | accept]
            | eapply (accepts_forms_at 2); [reflexivity | reflexivity | accept] ]
  end.

Lemma svg_token_exchanged_when_present_witness :
  exchanges svg_height "100vh" text_quoted
            (substitute svg_height "100vh" text_quoted).
Proof.
  apply (svg_token_exchanged_when_present "height" "100vh" text_quoted).
  exists "<body><div>", "<svg width='100%' height='100%'>",
         "<image/></svg></div></body>".
  split; [reflexivity|].
  exists "<svg width='100%' height='", "'>".
  split; [reflexivity|]. split; simpl; accept.
Defined.

Lemma detected_only_if_witness :
  exists (image_node svg_node body_node child : list nat)
         (path_pieces : list string),
    nodes_in doc_div_svg GUMBO_TAG_IMAGE = [image_node]
    /\ nodes_in doc_div_svg GUMBO_TAG_SVG = [svg_node]
    /\ nodes_in doc_div_svg GUMBO_TAG_BODY = [body_node]
    /\ List.filter (@significant _ (dom_interface doc_div_svg))
         (@element_children _ (dom_interface doc_div_svg) body_node) = [child]
    /\ (name_in doc_div_svg child = "div" \/ name_in doc_div_svg child = "svg")
    /\ path_in doc_div_svg 5 image_node = Done path_pieces
    /\ (join "," path_pieces = "body,div,svg,image"
        \/ join "," path_pieces = "body,svg,image")
    /\ value (@get_attributes_of_node _ (dom_interface doc_div_svg) svg_node)
             "width" EmptyString = "100%"
    /\ value (@get_attributes_of_node _ (dom_interface doc_div_svg) svg_node)
             "height" EmptyString = "100%".
Proof.
  apply (@detected_only_if _ (dom_interface doc_div_svg) 5).
  vm_compute. reflexivity.
Defined.

Lemma uncounted_child_ignored_witness :
  @scan_children _ (dom_interface doc_titled) ([] ++ [1; 0; 0] :: [[1; 1]]) [] 0
  = @scan_children _ (dom_interface doc_titled) ([] ++ [[1; 1]]) [] 0.
Proof.
  apply (@uncounted_child_ignored _ (dom_interface doc_titled)).
  left. vm_compute. discriminate.
Defined.

Lemma loading_stays_consistent_witness :
  exists w' : PreviewWindow,
    run "Preview" (fun _ => "0") (fun path => path)
        (fun _ => parsed doc_div_svg) false (fun text => text)
        [CallUpdatePage 5 "page.xhtml" text_quoted []; CallSetProgress 50;
         Timeout; CallSetProgress 7; CallUpdatePageDone]
        (constructed EmptyString EmptyString "Sigil" true false 0 0)
    = Done w'
    /\ loading_consistent w'.
Proof.
  eexists. split; [vm_compute; reflexivity|].
  apply (loading_stays_consistent "Preview" (fun _ => "0") (fun path => path)
           (fun _ => parsed doc_div_svg) false (fun text => text)
           [CallUpdatePage 5 "page.xhtml" text_quoted []; CallSetProgress 50;
            Timeout; CallSetProgress 7; CallUpdatePageDone]
           (constructed EmptyString EmptyString "Sigil" true false 0 0)).
  - unfold loading_consistent. simpl.
    split; [discriminate|]. split; [discriminate|]. split; discriminate.
  - vm_compute. reflexivity.
Defined.

Lemma one_load_at_a_time_witness :
  exists w1 : PreviewWindow,
    UpdatePage (fun _ => parsed doc_div_svg) false (fun text => text)
      5 "page.xhtml" text_quoted []
      (constructed EmptyString EmptyString "Sigil" true false 0 0)
    = Done (w1, true)
    /\ m_updatingPage w1 = true
    /\ UpdatePage (fun _ => parsed doc_div_svg) false (fun text => text)
         5 "other.xhtml" text_unquoted [] w1
       = Done (w1, false).
Proof.
  eexists. split; [vm_compute; reflexivity|].
  match goal with
  | |- m_updatingPage ?w1 = true /\ _ =>
      destruct (one_load_at_a_time "Preview" (fun _ => "0") (fun path => path)
                  (fun _ => parsed doc_div_svg) false (fun text => text)
                  5 "page.xhtml" text_quoted []
                  (constructed EmptyString EmptyString "Sigil" true false 0 0)
                  w1 eq_refl ltac:(vm_compute; reflexivity))
        as (Hb & _ & _ & _ & Hrefused & _)
  end.
  split; [exact Hb | apply Hrefused].
Defined.

Lemma hidden_preview_untouched_witness :
  exists w' : PreviewWindow,
    run "Preview" (fun _ => "0") (fun path => path)
        (fun _ => parsed doc_div_svg) false (fun text => text)
        [CallUpdatePage 5 "page.xhtml" text_quoted []; CallSetProgress 50;
         CallUpdatePageDone]
        (constructed EmptyString EmptyString "Sigil" false false 0 0)
    = Done w'
    /\ preview_visible w' = false
    /\ preview_document w' = None
    /\ m_Filepath w' = EmptyString.
Proof.
  apply (hidden_preview_untouched "Preview" (fun _ => "0") (fun path => path)
           (fun _ => parsed doc_div_svg) false (fun text => text)
           [CallUpdatePage 5 "page.xhtml" text_quoted []; CallSetProgress 50;
            CallUpdatePageDone]
           (constructed EmptyString EmptyString "Sigil" false false 0 0)).
  - reflexivity.
  - repeat constructor; discriminate.
Defined.

Lemma stylesheet_then_mathjax_witness :
  inject_mathjax "mathjax.js"
    (inject_user_stylesheet "user.css"
       "<html><head></head><body><math display='block'></math></body></html>")
  = "<html><head>" +:+ user_stylesheet_link "user.css"
    +:+ mathjax_script "mathjax.js" +:+ "</head>"
    +:+ "<body><math display='block'></math></body></html>".
Proof.
  apply (stylesheet_then_mathjax "user.css" "mathjax.js"
           "<html><head></head><body><math display='block'></math></body></html>"
           "<html><head>"
           "<body><math display='block'></math></body></html>").
  - discriminate.
  - intros k. do 9 (destruct k as [|k]; [reflexivity|]). reflexivity.
  - split; [reflexivity|]. intros k Hk.
    do 12 (destruct k as [|k]; [reflexivity|]). simpl in Hk. lia.
  - simpl. lia.
  - right. exists "<body>", "<math display='block'>", "</math></body></html>".
    split; [reflexivity|]. exists EmptyString, "display='block'".
    split; [reflexivity | split; reflexivity].
Defined.
